(** * LLM-FAQ-Expert: the FAQ extraction notebook

    A shallow embedding of [DocDataExtraction/extract_faq_to_json.ipynb]:
    [clean_line], the paragraph loop of [read_faq] and the course loop that
    builds [documents], followed by the properties of the segmentation pass. *)

From Stdlib Require Import List Arith NArith Bool String Ascii Lia.
Import ListNotations.

(** ** Python strings

    A Python [str] is a sequence of Unicode code points.  The notebook
    handles U+FEFF, so characters are code points (as [N]), not bytes. *)

Module PyStr.

Definition codepoint := N.
Definition pystr := list codepoint.

Definition of_string (s : string) : pystr :=
  map N_of_ascii (list_ascii_of_string s).

(** [str.isspace] on one code point: the white-space table of CPython
    ([_PyUnicode_IsWhitespace]). *)
Definition isspace (c : codepoint) : bool :=
  ((9 <=? c) && (c <=? 13) ||
   (28 <=? c) && (c <=? 32) ||
   (c =? 133) || (c =? 160) || (c =? 5760) ||
   (8192 <=? c) && (c <=? 8202) ||
   (c =? 8232) || (c =? 8233) || (c =? 8239) || (c =? 8287) ||
   (c =? 12288))%N.

(** U+FEFF, the character of [line.strip('\uFEFF')]. *)
Definition BOM : codepoint := 65279%N.
Definition isbom (c : codepoint) : bool := (c =? BOM)%N.

(** U+000A, the line feed the loop puts before each paragraph. *)
Definition LF : codepoint := 10%N.

(** [lstrip], [rstrip] and [strip] for a set of characters given by its
    membership test. *)
Fixpoint lstrip_by (p : codepoint -> bool) (s : pystr) : pystr :=
  match s with
  | [] => []
  | c :: s' => if p c then lstrip_by p s' else s
  end.

Definition rstrip_by (p : codepoint -> bool) (s : pystr) : pystr :=
  rev (lstrip_by p (rev s)).

Definition strip_by (p : codepoint -> bool) (s : pystr) : pystr :=
  rstrip_by p (lstrip_by p s).

(** [s.strip()] *)
Definition strip (s : pystr) : pystr := strip_by isspace s.

(** [s.strip(chars)] *)
Definition strip_chars (chars : pystr) (s : pystr) : pystr :=
  strip_by (fun c => existsb (N.eqb c) chars) s.

(** [s.lower()].  Code points A..Z go to a..z; U+212A goes to k and U+0130
    to i followed by U+0307, the only code points outside ASCII whose lower
    case contains an ASCII code point.  Every other code point is left as it
    is: it is outside ASCII before and after lowering, so the comparisons of
    the notebook with its ASCII style names are those of Python. *)
Definition lower_cp (c : codepoint) : pystr :=
  if ((65 <=? c) && (c <=? 90))%N then [(c + 32)%N]
  else if (c =? 8490)%N then [107%N]
  else if (c =? 304)%N then [105%N; 775%N]
  else [c].

Definition lower (s : pystr) : pystr := flat_map lower_cp s.

(** Truth value of a string in a condition: non-empty. *)
Definition truthy (s : pystr) : bool :=
  match s with
  | [] => false
  | _ :: _ => true
  end.

(** [s == t] *)
Fixpoint eqb (s t : pystr) : bool :=
  match s, t with
  | [], [] => true
  | c :: s', d :: t' => (c =? d)%N && eqb s' t'
  | _, _ => false
  end.

(** First and last character tests, used to state what stripping leaves. *)
Definition starts_with (p : codepoint -> bool) (s : pystr) : bool :=
  match s with
  | [] => false
  | c :: _ => p c
  end.

Definition ends_with (p : codepoint -> bool) (s : pystr) : bool :=
  starts_with p (rev s).

End PyStr.

Import PyStr.

(** ** The notebook *)

Module Faq.

(** [def clean_line(line)] *)
Definition clean_line (line : pystr) : pystr :=
  let line := strip line in
  let line := strip_chars [BOM] line in
  line.

(** A paragraph of [doc.paragraphs]: [p.style.name] and [p.text]. *)
Record Paragraph := mkParagraph {
  style_name : pystr;
  par_text : pystr
}.

(** One dictionary of the list [read_faq] returns, with its three keys. *)
Record Entry := mkEntry {
  text : pystr;
  section : pystr;
  question : pystr
}.

Definition question_heading_style : pystr := of_string "heading 2".
Definition section_heading_style : pystr := of_string "heading 1".

(** The variables the paragraph loop of [read_faq] assigns. *)
Record Vars := mkVars {
  questions : list Entry;
  section_title : pystr;
  question_title : pystr;
  answer_text_so_far : pystr
}.

Definition init : Vars :=
  {| questions := []; section_title := []; question_title := [];
     answer_text_so_far := [] |}.

(** The condition of both [if answer_text_so_far.strip() and section_title
    and question_title]. *)
Definition complete (v : Vars) : bool :=
  truthy (strip (answer_text_so_far v)) &&
  truthy (section_title v) &&
  truthy (question_title v).

(** The dictionary appended under that condition. *)
Definition entry_of (v : Vars) : Entry :=
  {| text := strip (answer_text_so_far v);
     section := section_title v;
     question := question_title v |}.

(** One iteration of [for p in doc.paragraphs]. *)
Definition step (v : Vars) (p : Paragraph) : Vars :=
  let style := lower (style_name p) in
  let p_text := clean_line (par_text p) in
  if negb (truthy p_text) then v
  else if eqb style section_heading_style then
    {| questions := questions v; section_title := p_text;
       question_title := question_title v;
       answer_text_so_far := answer_text_so_far v |}
  else if eqb style question_heading_style then
    let v' :=
      if complete v then
        {| questions := questions v ++ [entry_of v];
           section_title := section_title v;
           question_title := question_title v;
           answer_text_so_far := [] |}
      else v in
    {| questions := questions v'; section_title := section_title v';
       question_title := p_text;
       answer_text_so_far := answer_text_so_far v' |}
  else
    {| questions := questions v; section_title := section_title v;
       question_title := question_title v;
       answer_text_so_far := answer_text_so_far v ++ LF :: p_text |}.

(** The whole loop, from any values of the variables. *)
Definition loop (v : Vars) (ps : list Paragraph) : Vars :=
  fold_left step ps v.

(** The [if] after the loop and the [return questions]. *)
Definition finish (v : Vars) : list Entry :=
  if complete v then questions v ++ [entry_of v] else questions v.

(** [read_faq] from the point where [doc.paragraphs] is known. *)
Definition parse_paragraphs (ps : list Paragraph) : list Entry :=
  finish (loop init ps).

(** [read_faq(file_id)].  [requests.get], [raise_for_status] and
    [docx.Document] are the function [download]: it gives [doc.paragraphs],
    or the exception one of the three raises, which [read_faq] does not
    catch. *)
Definition read_faq {E : Type} (download : pystr -> E + list Paragraph)
    (file_id : pystr) : E + list Entry :=
  match download file_id with
  | inl exn => inl exn
  | inr paragraphs => inr (parse_paragraphs paragraphs)
  end.

(** The dictionary [faq_documents], in the order of its [items()]. *)
Definition faq_documents : list (pystr * pystr) :=
  [ (of_string "data-engineering-zoomcamp",
     of_string "19bnYs80DwuUimHM65UV3sylsCn2j1vziPOwzBwQrebw");
    (of_string "machine-learning-zoomcamp",
     of_string "1LpPanc33QJJ6BSsyxVg-pWNMplal84TdZtq10naIhD8");
    (of_string "mlops-zoomcamp",
     of_string "12TlBfhIiKtyBv8RnsoJR6F72bkPDGEvPOItJIxaEzE0") ].

(** One dictionary of the list [documents]. *)
Record Course := mkCourse {
  course : pystr;
  documents : list Entry
}.

(** The cell [for course, file_id in faq_documents.items()], over any
    mapping and from any value of [documents]: the list [documents] when the
    cell stops, and the exception that stopped it, if one did.  The cell has
    no [try]; its [print(course)] is left out. *)
Fixpoint course_loop {E : Type} (download : pystr -> E + list Paragraph)
    (mapping : list (pystr * pystr)) (docs : list Course)
    : list Course * option E :=
  match mapping with
  | [] => (docs, None)
  | (course, file_id) :: mapping' =>
      match read_faq download file_id with
      | inl exn => (docs, Some exn)
      | inr course_documents =>
          course_loop download mapping'
            (docs ++ [mkCourse course course_documents])
      end
  end.

(** The cells in order, as a run of the whole notebook executes them: the
    cell writing [documents.json] runs only if the loop cell raised nothing.
    The result is the list written to the file, or the exception. *)
Definition run_notebook {E : Type} (download : pystr -> E + list Paragraph)
    (mapping : list (pystr * pystr)) : E + list Course :=
  match course_loop download mapping [] with
  | (_, Some exn) => inl exn
  | (docs, None) => inr docs
  end.

End Faq.

Import Faq.

(** ** Vocabulary of the properties *)

Module Seg.

(** The branch of the loop body a paragraph takes. *)
Inductive Kind := Skipped | SectionHeading | QuestionHeading | Body.

Definition kind (p : Paragraph) : Kind :=
  if negb (truthy (clean_line (par_text p))) then Skipped
  else if eqb (lower (style_name p)) section_heading_style then SectionHeading
  else if eqb (lower (style_name p)) question_heading_style
       then QuestionHeading
  else Body.

(** The style test alone, whatever the text. *)
Definition question_style (p : Paragraph) : bool :=
  eqb (lower (style_name p)) question_heading_style.

(** What a paragraph appends to [questions]. *)
Definition flushed (v : Vars) (p : Paragraph) : list Entry :=
  match kind p with
  | QuestionHeading => if complete v then [entry_of v] else []
  | _ => []
  end.

(** What the [if] after the loop appends. *)
Definition flushed_at_end (v : Vars) : list Entry :=
  if complete v then [entry_of v] else [].

(** The normalized texts of the paragraphs that take the last branch. *)
Definition body_texts (ps : list Paragraph) : list pystr :=
  flat_map (fun p => match kind p with
                     | Body => [clean_line (par_text p)]
                     | _ => []
                     end) ps.

(** [sep.join(parts)] *)
Fixpoint join (sep : pystr) (parts : list pystr) : pystr :=
  match parts with
  | [] => []
  | [s] => s
  | s :: parts' => s ++ sep ++ join sep parts'
  end.

(** An entry turned back into three paragraphs: a section heading, a
    question heading and a paragraph of any other style. *)
Definition expand (e : Entry) : list Paragraph :=
  [ mkParagraph (of_string "Heading 1") (section e);
    mkParagraph (of_string "Heading 2") (question e);
    mkParagraph (of_string "Normal") (text e) ].

Definition reexpand (es : list Entry) : list Paragraph :=
  flat_map expand es.

(** The three texts of an entry are left as they are by [clean_line]. *)
Definition clean_stable (e : Entry) : Prop :=
  clean_line (section e) = section e /\
  clean_line (question e) = question e /\
  clean_line (text e) = text e.

(** An entry starts a flush-free stretch: the input so far is empty or its
    last paragraph appended an entry. *)
Definition just_flushed (ps : list Paragraph) : Prop :=
  ps = [] \/
  exists ps' p, ps = ps' ++ [p] /\
    questions (loop init ps) = questions (loop init ps') ++ [entry_of (loop init ps')].

(** An entry whose texts [clean_line] leaves alone and are not empty. *)
Definition settled (e : Entry) : Prop :=
  clean_stable e /\ text e <> [] /\ section e <> [] /\ question e <> [].

(** The entries so far, plus one for an open question. *)
Definition title_count (v : Vars) : nat :=
  List.length (questions v) + (if truthy (question_title v) then 1 else 0).

(** [d] is the dictionary the course loop appends for the pair [cf] of
    [faq_documents] when its download succeeds. *)
Definition fetched {E : Type} (download : pystr -> E + list Paragraph)
    (cf : pystr * pystr) (d : Course) : Prop :=
  exists paragraphs,
    download (snd cf) = inr paragraphs /\
    d = mkCourse (fst cf) (parse_paragraphs paragraphs).

(** A download that fails for the first document of [faq_documents] and
    gives three paragraphs for any other. *)
Definition first_fails (file_id : pystr) : pystr + list Paragraph :=
  if eqb file_id (of_string "19bnYs80DwuUimHM65UV3sylsCn2j1vziPOwzBwQrebw")
  then inl (of_string "404 Client Error")
  else inr [ mkParagraph (of_string "Heading 1") (of_string "General");
             mkParagraph (of_string "Heading 2") (of_string "When?");
             mkParagraph (of_string "Normal") (of_string "Soon.") ].

(** A download that fails for the second document only. *)
Definition second_fails (file_id : pystr) : pystr + list Paragraph :=
  if eqb file_id (of_string "1LpPanc33QJJ6BSsyxVg-pWNMplal84TdZtq10naIhD8")
  then inl (of_string "404 Client Error")
  else inr [ mkParagraph (of_string "Heading 1") (of_string "General");
             mkParagraph (of_string "Heading 2") (of_string "When?");
             mkParagraph (of_string "Normal") (of_string "Soon.") ].

(** Equality of branches. *)
Definition Kind_eqb (k k' : Kind) : bool :=
  match k, k' with
  | Skipped, Skipped | SectionHeading, SectionHeading
  | QuestionHeading, QuestionHeading | Body, Body => true
  | _, _ => false
  end.

(** The cleaned texts of the paragraphs that take branch [k], in order. *)
Definition texts_of (k : Kind) (ps : list Paragraph) : list pystr :=
  flat_map (fun p => if Kind_eqb (kind p) k
                     then [clean_line (par_text p)] else []) ps.

(** The cleaned text of the last paragraph taking branch [k], or the empty
    string when there is none. *)
Definition last_heading (k : Kind) (ps : list Paragraph) : pystr :=
  last (texts_of k ps) [].

(** Some paragraph takes branch [k]. *)
Definition has_kind (k : Kind) (ps : list Paragraph) : bool :=
  existsb (fun p => Kind_eqb (kind p) k) ps.

(** The entries so far, plus one for a non-empty [answer_text_so_far]. *)
Definition answer_count (v : Vars) : nat :=
  List.length (questions v)
  + (if truthy (answer_text_so_far v) then 1 else 0).

(** A text [clean_line] leaves as it is and that is not empty. *)
Definition plain (t : pystr) : Prop := clean_line t = t /\ t <> [].

(** A document of one section: its heading, then each question heading
    followed by the paragraphs of its answer. *)
Definition document (s : pystr) (qas : list (pystr * list pystr))
    : list Paragraph :=
  mkParagraph (of_string "Heading 1") s ::
  flat_map (fun qa => mkParagraph (of_string "Heading 2") (fst qa) ::
                      map (mkParagraph (of_string "Normal")) (snd qa)) qas.

(** Two values of the loop variables that differ at most in a non-empty
    [section_title] and in the sections of the entries. *)
Definition same_but_section (v w : Vars) : Prop :=
  map text (questions v) = map text (questions w) /\
  map question (questions v) = map question (questions w) /\
  section_title v <> [] /\ section_title w <> [] /\
  question_title v = question_title w /\
  answer_text_so_far v = answer_text_so_far w.

(** The end tests an entry of the result passes. *)
Definition trimmed (e : Entry) : Prop :=
  starts_with isspace (text e) = false /\
  ends_with isspace (text e) = false /\
  starts_with isbom (section e) = false /\
  ends_with isbom (section e) = false /\
  starts_with isbom (question e) = false /\
  ends_with isbom (question e) = false.

End Seg.

Import Seg.

(** Short names for paragraphs of the three kinds in examples. *)
Definition Sec (s : string) : Paragraph :=
  mkParagraph (of_string "Heading 1") (of_string s).
Definition Que (s : string) : Paragraph :=
  mkParagraph (of_string "Heading 2") (of_string s).
Definition Par (s : string) : Paragraph :=
  mkParagraph (of_string "Normal") (of_string s).
Definition Ent (a s q : string) : Entry :=
  mkEntry (of_string a) (of_string s) (of_string q).

(** ** The scenarios of the specification *)

Example scenario_a :
  parse_paragraphs
    [ Sec "General"; Que "Start date?"; Par "Course starts Jan 15.";
      Que "Where is Slack?"; Par "Link in announcements." ]
  = [ Ent "Course starts Jan 15." "General" "Start date?";
      Ent "Link in announcements." "General" "Where is Slack?" ].
Proof. vm_compute. reflexivity. Qed.

Example scenario_b :
  parse_paragraphs [ Sec "General"; Que "First?"; Que "Second?"; Par "Yes." ]
  = [ Ent "Yes." "General" "Second?" ].
Proof. vm_compute. reflexivity. Qed.

Example scenario_d : parse_paragraphs [] = [].
Proof. reflexivity. Qed.

(** A question that closes after a new section heading is filed under the
    new section. *)
Example section_of_flush :
  parse_paragraphs
    [ Sec "A"; Que "q1"; Par "a1"; Sec "B"; Que "q2"; Par "a2" ]
  = [ Ent "a1" "B" "q1"; Ent "a2" "B" "q2" ].
Proof. vm_compute. reflexivity. Qed.

(** ** Stripping *)

Section Strip.

Variable p : codepoint -> bool.

Lemma lstrip_by_starts (s : pystr) : starts_with p (lstrip_by p s) = false.
Proof.
  induction s as [|c s IH]; simpl; [reflexivity|].
  destruct (p c) eqn:Hc; [exact IH | simpl; exact Hc].
Qed.

Lemma lstrip_by_id (s : pystr) :
  starts_with p s = false -> lstrip_by p s = s.
Proof.
  destruct s as [|c s]; simpl; [reflexivity|].
  intros ->. reflexivity.
Qed.

Lemma lstrip_by_suffix (s : pystr) : exists pre, s = pre ++ lstrip_by p s.
Proof.
  induction s as [|c s [pre IH]]; simpl.
  - exists []. reflexivity.
  - destruct (p c).
    + exists (c :: pre). simpl. f_equal. exact IH.
    + exists []. reflexivity.
Qed.

Lemma rstrip_by_prefix (s : pystr) : exists suf, s = rstrip_by p s ++ suf.
Proof.
  unfold rstrip_by. destruct (lstrip_by_suffix (rev s)) as [pre H].
  exists (rev pre). rewrite <- rev_app_distr, <- H, rev_involutive. reflexivity.
Qed.

Lemma rstrip_by_ends (s : pystr) : ends_with p (rstrip_by p s) = false.
Proof.
  unfold ends_with, rstrip_by. rewrite rev_involutive. apply lstrip_by_starts.
Qed.

Lemma rstrip_by_id (s : pystr) :
  ends_with p s = false -> rstrip_by p s = s.
Proof.
  unfold ends_with, rstrip_by. intros H.
  rewrite (lstrip_by_id _ H). apply rev_involutive.
Qed.

(** A first character that survives [rstrip_by] was the first character. *)
Lemma starts_with_rstrip_by (q : codepoint -> bool) (s : pystr) :
  starts_with q (rstrip_by p s) = true -> starts_with q s = true.
Proof.
  destruct (rstrip_by_prefix s) as [suf H].
  destruct (rstrip_by p s) as [|c t]; simpl; [discriminate|].
  intros Hq. rewrite H. simpl. exact Hq.
Qed.

(** A last character that survives [lstrip_by] was the last character. *)
Lemma ends_with_lstrip_by (q : codepoint -> bool) (s : pystr) :
  ends_with q (lstrip_by p s) = true -> ends_with q s = true.
Proof.
  unfold ends_with. destruct (lstrip_by_suffix s) as [pre H].
  destruct (rev (lstrip_by p s)) as [|c t] eqn:Hr; simpl; [discriminate|].
  intros Hq. rewrite H, rev_app_distr, Hr. simpl. exact Hq.
Qed.

Lemma strip_by_starts (s : pystr) : starts_with p (strip_by p s) = false.
Proof.
  unfold strip_by.
  destruct (starts_with p (rstrip_by p (lstrip_by p s))) eqn:H;
    [|reflexivity].
  apply starts_with_rstrip_by in H. rewrite lstrip_by_starts in H.
  discriminate.
Qed.

Lemma strip_by_ends (s : pystr) : ends_with p (strip_by p s) = false.
Proof. apply rstrip_by_ends. Qed.

Lemma strip_by_id (s : pystr) :
  starts_with p s = false -> ends_with p s = false -> strip_by p s = s.
Proof.
  intros Hs He. unfold strip_by. rewrite (lstrip_by_id _ Hs).
  apply rstrip_by_id, He.
Qed.

Lemma strip_by_idem (s : pystr) : strip_by p (strip_by p s) = strip_by p s.
Proof. apply strip_by_id; [apply strip_by_starts | apply strip_by_ends]. Qed.

(** A stripped character in front changes nothing. *)
Lemma strip_by_cons (c : codepoint) (s : pystr) :
  p c = true -> strip_by p (c :: s) = strip_by p s.
Proof. intros H. unfold strip_by. simpl. rewrite H. reflexivity. Qed.

End Strip.

Lemma lstrip_by_ext (p q : codepoint -> bool) (s : pystr) :
  (forall c, p c = q c) -> lstrip_by p s = lstrip_by q s.
Proof.
  intros H. induction s as [|c s IH]; simpl; [reflexivity|].
  rewrite H, IH. reflexivity.
Qed.

Lemma strip_by_ext (p q : codepoint -> bool) (s : pystr) :
  (forall c, p c = q c) -> strip_by p s = strip_by q s.
Proof.
  intros H. unfold strip_by, rstrip_by.
  rewrite (lstrip_by_ext p q s H). rewrite (lstrip_by_ext p q _ H). reflexivity.
Qed.

Lemma strip_chars_bom (s : pystr) : strip_chars [BOM] s = strip_by isbom s.
Proof.
  unfold strip_chars. apply strip_by_ext. intros c. simpl.
  apply orb_false_r.
Qed.

Lemma clean_line_unfold (s : pystr) :
  clean_line s = strip_by isbom (strip s).
Proof. unfold clean_line. apply strip_chars_bom. Qed.

Lemma strip_idem (s : pystr) : strip (strip s) = strip s.
Proof. apply strip_by_idem. Qed.

Lemma strip_LF (s : pystr) : strip (LF :: s) = strip s.
Proof. apply strip_by_cons. reflexivity. Qed.

Lemma truthy_true (s : pystr) : truthy s = true <-> s <> [].
Proof. destruct s; simpl; split; congruence. Qed.

(** ** [clean_line] *)

Lemma clean_line_no_bom (s : pystr) :
  starts_with isbom (clean_line s) = false /\
  ends_with isbom (clean_line s) = false.
Proof.
  rewrite clean_line_unfold. split;
    [apply strip_by_starts | apply strip_by_ends].
Qed.

Lemma clean_line_leading (s : pystr) :
  starts_with isbom (strip s) = false ->
  starts_with isspace (clean_line s) = false.
Proof.
  intros Hb. rewrite clean_line_unfold. unfold strip_by at 1.
  rewrite (lstrip_by_id isbom _ Hb).
  destruct (starts_with isspace (rstrip_by isbom (strip s))) eqn:H;
    [|reflexivity].
  apply starts_with_rstrip_by in H. unfold strip in H.
  rewrite strip_by_starts in H. discriminate.
Qed.

Lemma clean_line_trailing (s : pystr) :
  ends_with isbom (strip s) = false ->
  ends_with isspace (clean_line s) = false.
Proof.
  intros Hb. rewrite clean_line_unfold. unfold strip_by at 1.
  assert (Ht : ends_with isbom (lstrip_by isbom (strip s)) = false).
  { destruct (ends_with isbom (lstrip_by isbom (strip s))) eqn:H;
      [|reflexivity].
    apply ends_with_lstrip_by in H. congruence. }
  rewrite (rstrip_by_id isbom _ Ht).
  destruct (ends_with isspace (lstrip_by isbom (strip s))) eqn:H;
    [|reflexivity].
  apply ends_with_lstrip_by in H. unfold strip in H.
  rewrite strip_by_ends in H. discriminate.
Qed.

(** A text that [clean_line] leaves as it is, is left as it is by [strip]
    too: neither step removes anything. *)
Lemma lstrip_by_length (p : codepoint -> bool) (s : pystr) :
  List.length (lstrip_by p s) <= List.length s.
Proof.
  induction s as [|c s IH]; simpl; [lia|]. destruct (p c); simpl; lia.
Qed.

Lemma lstrip_by_same_length (p : codepoint -> bool) (s : pystr) :
  List.length (lstrip_by p s) = List.length s -> lstrip_by p s = s.
Proof.
  destruct s as [|c s]; simpl; [reflexivity|].
  destruct (p c); [|reflexivity].
  intros H. pose proof (lstrip_by_length p s). lia.
Qed.

Lemma rstrip_by_length (p : codepoint -> bool) (s : pystr) :
  List.length (rstrip_by p s) <= List.length s.
Proof.
  unfold rstrip_by. rewrite length_rev.
  pose proof (lstrip_by_length p (rev s)) as H. rewrite length_rev in H.
  exact H.
Qed.

Lemma strip_by_length (p : codepoint -> bool) (s : pystr) :
  List.length (strip_by p s) <= List.length s.
Proof.
  unfold strip_by. pose proof (rstrip_by_length p (lstrip_by p s)).
  pose proof (lstrip_by_length p s). lia.
Qed.

Lemma strip_by_same_length (p : codepoint -> bool) (s : pystr) :
  List.length (strip_by p s) = List.length s -> strip_by p s = s.
Proof.
  intros H. unfold strip_by in *.
  pose proof (rstrip_by_length p (lstrip_by p s)) as H1.
  pose proof (lstrip_by_length p s) as H2.
  assert (Hl : lstrip_by p s = s) by (apply lstrip_by_same_length; lia).
  rewrite Hl in *. unfold rstrip_by in *. rewrite length_rev in H.
  assert (Hr : lstrip_by p (rev s) = rev s).
  { apply lstrip_by_same_length. rewrite length_rev. exact H. }
  rewrite Hr. apply rev_involutive.
Qed.

Lemma clean_stable_strip (s : pystr) : clean_line s = s -> strip s = s.
Proof.
  rewrite clean_line_unfold. intros H. apply strip_by_same_length.
  pose proof (strip_by_length isbom (strip s)) as H1.
  pose proof (strip_by_length isspace s) as H2. fold (strip s) in H2.
  rewrite H in H1. fold (strip s). lia.
Qed.

(** ** The loop body, branch by branch *)

Lemma eqb_eq (s t : pystr) : eqb s t = true -> s = t.
Proof.
  revert t. induction s as [|c s IH]; intros [|d t]; simpl;
    try discriminate; [reflexivity|].
  intros H. apply andb_prop in H. destruct H as [Hc Hs].
  apply N.eqb_eq in Hc. subst d. f_equal. apply IH, Hs.
Qed.

Lemma kind_question (p : Paragraph) :
  question_style p = true -> clean_line (par_text p) <> [] ->
  kind p = QuestionHeading.
Proof.
  unfold question_style, kind. intros Hq Ht.
  apply truthy_true in Ht. rewrite Ht. simpl.
  destruct (eqb (lower (style_name p)) section_heading_style) eqn:Hs.
  - apply eqb_eq in Hs. apply eqb_eq in Hq. rewrite Hs in Hq.
    discriminate.
  - rewrite Hq. reflexivity.
Qed.

Lemma kind_question_inv (p : Paragraph) :
  kind p = QuestionHeading ->
  question_style p = true /\ clean_line (par_text p) <> [].
Proof.
  unfold question_style, kind.
  destruct (truthy (clean_line (par_text p))) eqn:Ht; simpl;
    [|discriminate].
  apply truthy_true in Ht.
  destruct (eqb (lower (style_name p)) section_heading_style);
    [discriminate|].
  destruct (eqb (lower (style_name p)) question_heading_style);
    [auto | discriminate].
Qed.

Lemma kind_skipped (p : Paragraph) :
  clean_line (par_text p) = [] -> kind p = Skipped.
Proof. unfold kind. intros ->. reflexivity. Qed.

Lemma step_kind (v : Vars) (p : Paragraph) :
  step v p =
  match kind p with
  | Skipped => v
  | SectionHeading =>
      mkVars (questions v) (clean_line (par_text p)) (question_title v)
        (answer_text_so_far v)
  | QuestionHeading =>
      mkVars (questions v ++ flushed_at_end v) (section_title v)
        (clean_line (par_text p))
        (if complete v then [] else answer_text_so_far v)
  | Body =>
      mkVars (questions v) (section_title v) (question_title v)
        (answer_text_so_far v ++ LF :: clean_line (par_text p))
  end.
Proof.
  unfold step, kind, flushed_at_end.
  destruct (negb (truthy (clean_line (par_text p)))); [reflexivity|].
  destruct (eqb (lower (style_name p)) section_heading_style);
    [reflexivity|].
  destruct (eqb (lower (style_name p)) question_heading_style);
    [|reflexivity].
  destruct (complete v); simpl; [reflexivity|].
  rewrite app_nil_r. reflexivity.
Qed.

Lemma questions_step (v : Vars) (p : Paragraph) :
  questions (step v p) = questions v ++ flushed v p.
Proof.
  rewrite step_kind. unfold flushed, flushed_at_end.
  destruct (kind p); simpl; rewrite ?app_nil_r; reflexivity.
Qed.

Lemma loop_app (v : Vars) (ps qs : list Paragraph) :
  loop v (ps ++ qs) = loop (loop v ps) qs.
Proof. apply fold_left_app. Qed.

Lemma loop_snoc (v : Vars) (ps : list Paragraph) (p : Paragraph) :
  loop v (ps ++ [p]) = step (loop v ps) p.
Proof. rewrite loop_app. reflexivity. Qed.

Lemma complete_iff (v : Vars) :
  complete v = true <->
  section_title v <> [] /\ question_title v <> [] /\
  strip (answer_text_so_far v) <> [].
Proof.
  unfold complete. rewrite !andb_true_iff, !truthy_true. tauto.
Qed.

(** ** Text normalization *)

(** C7, as stated, fails: a U+FEFF in front of a space is removed after the
    white space was, and uncovers the space. *)
Lemma clean_line_keeps_space_after_bom :
  ~ (forall s : pystr,
       starts_with isspace (clean_line s) = false /\
       ends_with isspace (clean_line s) = false /\
       starts_with isbom (clean_line s) = false).
Proof.
  intros H. destruct (H (BOM :: of_string " a")) as [H1 _].
  vm_compute in H1. discriminate.
Qed.

(** C7 (amended): [clean_line] strips surrounding white space and then the
    U+FEFF characters at both ends.  Its result never begins or ends with
    U+FEFF; it does not begin with white space unless the input stripped of
    white space begins with U+FEFF, and does not end with white space unless
    that ends with U+FEFF; a U+FEFF followed by "When does it start?"
    becomes "When does it start?". *)
Theorem clean_line_result (s : pystr) :
  starts_with isbom (clean_line s) = false /\
  ends_with isbom (clean_line s) = false /\
  (starts_with isbom (strip s) = false ->
   starts_with isspace (clean_line s) = false) /\
  (ends_with isbom (strip s) = false ->
   ends_with isspace (clean_line s) = false) /\
  clean_line (BOM :: of_string "When does it start?")
  = of_string "When does it start?".
Proof.
  destruct (clean_line_no_bom s) as [H1 H2].
  repeat split; auto using clean_line_leading, clean_line_trailing.
Qed.

Lemma clean_line_result_witness :
  starts_with isspace (clean_line (of_string "  Hello, world ")) = false /\
  ends_with isspace (clean_line (of_string "  Hello, world ")) = false.
Proof.
  destruct (clean_line_result (of_string "  Hello, world "))
    as (_ & _ & Hl & Ht & _).
  split; [apply Hl | apply Ht]; reflexivity.
Defined.

(** ** The flush at a question heading *)

Lemma step_at_question (v : Vars) (p : Paragraph) :
  question_style p = true ->
  clean_line (par_text p) <> [] ->
  (complete v = true ->
   questions (step v p) = questions v ++ [entry_of v] /\
   answer_text_so_far (step v p) = []) /\
  (complete v = false ->
   questions (step v p) = questions v /\
   answer_text_so_far (step v p) = answer_text_so_far v).
Proof.
  intros Hq Ht. rewrite step_kind.
  rewrite (kind_question p Hq Ht). unfold flushed_at_end. simpl.
  split; intros ->; rewrite ?app_nil_r; auto.
Qed.

(** C1, as stated, fails: a paragraph before the first question heading is
    still in [answer_text_so_far] after that heading. *)
Lemma answer_kept_without_flush :
  question_style (Que "When?") = true /\
  clean_line (par_text (Que "When?")) <> [] /\
  answer_text_so_far (loop init [Par "Welcome."; Que "When?"])
  = LF :: of_string "Welcome." /\
  answer_text_so_far (loop init [Par "Welcome."; Que "When?"]) <> [].
Proof. repeat split; vm_compute; discriminate. Qed.

(** C1 (amended): right after a paragraph whose style is, in any case,
    the question heading style and whose cleaned text is not empty,
    [answer_text_so_far] is empty if that paragraph appended an entry, and
    is what it was before otherwise. *)
Theorem answer_after_question (ps : list Paragraph) (p : Paragraph) :
  question_style p = true ->
  clean_line (par_text p) <> [] ->
  let v := loop init ps in
  let v' := loop init (ps ++ [p]) in
  (complete v = true ->
   questions v' = questions v ++ [entry_of v] /\ answer_text_so_far v' = []) /\
  (complete v = false ->
   questions v' = questions v /\
   answer_text_so_far v' = answer_text_so_far v).
Proof.
  intros Hq Ht v v'. subst v v'. rewrite loop_snoc.
  exact (step_at_question (loop init ps) p Hq Ht).
Qed.

Lemma answer_after_question_witness :
  questions (loop init [Sec "S"; Que "q"; Par "a"; Que "r"])
  = [Ent "a" "S" "q"] /\
  answer_text_so_far (loop init [Sec "S"; Que "q"; Par "a"; Que "r"]) = [].
Proof.
  apply (answer_after_question [Sec "S"; Que "q"; Par "a"] (Que "r")).
  - reflexivity.
  - vm_compute. discriminate.
  - reflexivity.
Defined.

(** ** When an entry is appended *)

Lemma step_fields (v : Vars) (p : Paragraph) :
  Forall (fun e => text e <> [] /\ section e <> [] /\ question e <> [])
    (questions v) ->
  Forall (fun e => text e <> [] /\ section e <> [] /\ question e <> [])
    (questions (step v p)).
Proof.
  intros H. rewrite questions_step. apply Forall_app. split; [exact H|].
  unfold flushed. destruct (kind p); try constructor.
  destruct (complete v) eqn:Hc; constructor; [|constructor].
  apply complete_iff in Hc. simpl. tauto.
Qed.

Lemma loop_fields (ps : list Paragraph) (v : Vars) :
  Forall (fun e => text e <> [] /\ section e <> [] /\ question e <> [])
    (questions v) ->
  Forall (fun e => text e <> [] /\ section e <> [] /\ question e <> [])
    (questions (loop v ps)).
Proof.
  revert v. induction ps as [|p ps IH]; intros v H; simpl; [exact H|].
  apply IH, step_fields, H.
Qed.

Lemma parse_fields (ps : list Paragraph) :
  Forall (fun e => text e <> [] /\ section e <> [] /\ question e <> [])
    (parse_paragraphs ps).
Proof.
  unfold parse_paragraphs, finish.
  pose proof (loop_fields ps init (Forall_nil _)) as H.
  destruct (complete (loop init ps)) eqn:Hc; [|exact H].
  apply Forall_app. split; [exact H|]. constructor; [|constructor].
  apply complete_iff in Hc. simpl. tauto.
Qed.

(** C3: at a question heading that the loop does not skip, and after the
    last paragraph, an entry is appended if and only if [section_title],
    [question_title] and the stripped [answer_text_so_far] are all non-empty
    then; no entry of the result has an empty text, section or question. *)
Theorem entry_iff_complete (ps : list Paragraph) :
  (forall ps1 p ps2, ps = ps1 ++ p :: ps2 ->
     question_style p = true -> clean_line (par_text p) <> [] ->
     let v := loop init ps1 in
     (section_title v <> [] /\ question_title v <> [] /\
      strip (answer_text_so_far v) <> [] ->
      questions (loop init (ps1 ++ [p])) = questions v ++ [entry_of v]) /\
     (~ (section_title v <> [] /\ question_title v <> [] /\
         strip (answer_text_so_far v) <> []) ->
      questions (loop init (ps1 ++ [p])) = questions v)) /\
  (let v := loop init ps in
   (section_title v <> [] /\ question_title v <> [] /\
    strip (answer_text_so_far v) <> [] ->
    parse_paragraphs ps = questions v ++ [entry_of v]) /\
   (~ (section_title v <> [] /\ question_title v <> [] /\
       strip (answer_text_so_far v) <> []) ->
    parse_paragraphs ps = questions v)) /\
  Forall (fun e => text e <> [] /\ section e <> [] /\ question e <> [])
    (parse_paragraphs ps).
Proof.
  split; [|split].
  - intros ps1 p ps2 _ Hq Ht v. rewrite loop_snoc. fold v.
    destruct (step_at_question v p Hq Ht) as [Hy Hn].
    split; intros Hc.
    + apply complete_iff in Hc. apply Hy, Hc.
    + apply Hn. destruct (complete v) eqn:E; [|reflexivity].
      apply complete_iff in E. contradiction.
  - intros v. unfold parse_paragraphs, finish. fold v. split; intros Hc.
    + apply complete_iff in Hc. rewrite Hc. reflexivity.
    + destruct (complete v) eqn:E; [|reflexivity].
      apply complete_iff in E. contradiction.
  - apply parse_fields.
Qed.

Lemma entry_iff_complete_witness :
  questions (loop init ([Sec "S"; Que "q"; Par "a"] ++ [Que "r"]))
  = questions (loop init [Sec "S"; Que "q"; Par "a"])
    ++ [entry_of (loop init [Sec "S"; Que "q"; Par "a"])].
Proof.
  destruct (entry_iff_complete
              [Sec "S"; Que "q"; Par "a"; Que "r"; Par "b"]) as [H _].
  apply (H [Sec "S"; Que "q"; Par "a"] (Que "r") [Par "b"]).
  - reflexivity.
  - reflexivity.
  - vm_compute. discriminate.
  - vm_compute. repeat split; discriminate.
Defined.

(** ** Counting entries *)

Lemma kind_text (p : Paragraph) :
  kind p <> Skipped -> clean_line (par_text p) <> [].
Proof.
  unfold kind. destruct (clean_line (par_text p)); simpl; congruence.
Qed.

Lemma step_title_count (v : Vars) (p : Paragraph) (n : nat) :
  title_count v <= n ->
  title_count (step v p) <= n + (if question_style p then 1 else 0).
Proof.
  unfold title_count. intros H. rewrite step_kind.
  destruct (kind p) eqn:Hk; simpl; try lia.
  destruct (kind_question_inv p Hk) as [Hq Ht]. rewrite Hq.
  apply truthy_true in Ht. rewrite Ht. rewrite length_app.
  unfold flushed_at_end. destruct (complete v) eqn:Hc; simpl.
  - unfold complete in Hc. rewrite !andb_true_iff in Hc.
    destruct Hc as [_ Hc]. rewrite Hc in H. lia.
  - destruct (truthy (question_title v)); lia.
Qed.

Lemma loop_title_count (ps : list Paragraph) (v : Vars) (n : nat) :
  title_count v <= n ->
  title_count (loop v ps) <= n + List.length (filter question_style ps).
Proof.
  revert v n. induction ps as [|p ps IH]; intros v n H; simpl; [lia|].
  pose proof (IH _ _ (step_title_count v p n H)) as H'.
  destruct (question_style p); simpl; lia.
Qed.

(** C6: the result has at most as many entries as the input has paragraphs
    of the question heading style. *)
Theorem entries_le_question_headings (ps : list Paragraph) :
  List.length (parse_paragraphs ps)
  <= List.length (filter question_style ps).
Proof.
  pose proof (loop_title_count ps init 0 (le_n 0)) as H.
  unfold parse_paragraphs, finish. unfold title_count in H. simpl in H.
  destruct (complete (loop init ps)) eqn:Hc.
  - unfold complete in Hc. rewrite !andb_true_iff in Hc.
    destruct Hc as [_ Hc]. rewrite Hc in H. rewrite length_app. simpl. lia.
  - lia.
Qed.

(** ** Skipped paragraphs *)

(** C8: a paragraph whose cleaned text is empty can be removed from the
    input without changing the result. *)
Theorem empty_paragraph_noop (ps1 ps2 : list Paragraph) (p : Paragraph) :
  clean_line (par_text p) = [] ->
  parse_paragraphs (ps1 ++ p :: ps2) = parse_paragraphs (ps1 ++ ps2).
Proof.
  intros H. unfold parse_paragraphs. rewrite !loop_app. simpl.
  rewrite step_kind, (kind_skipped p H). reflexivity.
Qed.

Lemma empty_paragraph_noop_witness :
  parse_paragraphs
    ([Sec "S"; Que "q"] ++ mkParagraph (of_string "Heading 2")
                             (BOM :: of_string "  ") :: [Par "a"])
  = parse_paragraphs ([Sec "S"; Que "q"] ++ [Par "a"]).
Proof. apply empty_paragraph_noop. reflexivity. Defined.

(** ** Titles stay non-empty *)

Lemma step_section_title (v : Vars) (p : Paragraph) :
  section_title (step v p) = section_title v \/
  section_title (step v p) = clean_line (par_text p) /\
  clean_line (par_text p) <> [].
Proof.
  rewrite step_kind. destruct (kind p) eqn:Hk; simpl; auto.
  right. split; [reflexivity|]. apply kind_text. congruence.
Qed.

Lemma step_question_title (v : Vars) (p : Paragraph) :
  question_title (step v p) = question_title v \/
  question_title (step v p) = clean_line (par_text p) /\
  clean_line (par_text p) <> [].
Proof.
  rewrite step_kind. destruct (kind p) eqn:Hk; simpl; auto.
  right. split; [reflexivity|]. apply kind_text. congruence.
Qed.

Lemma loop_section_title (ps : list Paragraph) (v : Vars) :
  section_title v <> [] -> section_title (loop v ps) <> [].
Proof.
  revert v. induction ps as [|p ps IH]; intros v H; simpl; [exact H|].
  apply IH. destruct (step_section_title v p) as [-> | [-> Ht]]; assumption.
Qed.

Lemma loop_question_title (ps : list Paragraph) (v : Vars) :
  question_title v <> [] -> question_title (loop v ps) <> [].
Proof.
  revert v. induction ps as [|p ps IH]; intros v H; simpl; [exact H|].
  apply IH. destruct (step_question_title v p) as [-> | [-> Ht]]; assumption.
Qed.

(** Once an entry is in [questions], both titles are non-empty. *)
Lemma loop_titles_of_entry (ps : list Paragraph) (v : Vars) :
  (questions v <> [] -> section_title v <> [] /\ question_title v <> []) ->
  questions (loop v ps) <> [] ->
  section_title (loop v ps) <> [] /\ question_title (loop v ps) <> [].
Proof.
  revert v. induction ps as [|p ps IH]; intros v H; simpl; [exact H|].
  apply IH. intros Hq.
  assert (Hv : section_title v <> [] /\ question_title v <> []).
  { rewrite questions_step in Hq.
    destruct (questions v) as [|e es] eqn:Hqs; [|apply H; discriminate].
    simpl in Hq. unfold flushed in Hq.
    destruct (kind p); try congruence.
    destruct (complete v) eqn:Hc; [|congruence].
    apply complete_iff in Hc. tauto. }
  destruct Hv as [Hs Ht]. split.
  - apply (loop_section_title [p] v Hs).
  - apply (loop_question_title [p] v Ht).
Qed.

(** C9: each title is only ever given a non-empty cleaned text, so a title
    that is non-empty stays non-empty to the end of the loop; and once an
    entry has been appended, every later question heading (one the loop
    does not skip) reached with a non-empty stripped [answer_text_so_far]
    appends an entry. *)
Theorem titles_monotone (ps ps' : list Paragraph) :
  (forall p,
     (section_title (step (loop init ps) p) = section_title (loop init ps) \/
      section_title (step (loop init ps) p) = clean_line (par_text p) /\
      clean_line (par_text p) <> []) /\
     (question_title (step (loop init ps) p) = question_title (loop init ps) \/
      question_title (step (loop init ps) p) = clean_line (par_text p) /\
      clean_line (par_text p) <> [])) /\
  (section_title (loop init ps) <> [] ->
   section_title (loop init (ps ++ ps')) <> []) /\
  (question_title (loop init ps) <> [] ->
   question_title (loop init (ps ++ ps')) <> []) /\
  (questions (loop init ps) <> [] ->
   forall p, question_style p = true -> clean_line (par_text p) <> [] ->
     strip (answer_text_so_far (loop init (ps ++ ps'))) <> [] ->
     questions (loop init ((ps ++ ps') ++ [p]))
     = questions (loop init (ps ++ ps'))
       ++ [entry_of (loop init (ps ++ ps'))]).
Proof.
  split; [|split; [|split]].
  - intros p. split; [apply step_section_title | apply step_question_title].
  - rewrite loop_app. apply loop_section_title.
  - rewrite loop_app. apply loop_question_title.
  - intros Hq p Hs Ht Ha.
    destruct (loop_titles_of_entry ps init) as [H1 H2];
      [simpl; congruence | exact Hq |].
    rewrite loop_snoc.
    destruct (step_at_question (loop init (ps ++ ps')) p Hs Ht) as [Hy _].
    apply Hy. apply complete_iff. rewrite loop_app.
    split; [apply loop_section_title, H1|].
    split; [apply loop_question_title, H2|].
    rewrite <- loop_app. exact Ha.
Qed.

Lemma titles_monotone_witness :
  questions (loop init (([Sec "S"; Que "q"; Par "a"; Que "r"] ++ [Par "b"])
                        ++ [Que "t"]))
  = questions (loop init ([Sec "S"; Que "q"; Par "a"; Que "r"] ++ [Par "b"]))
    ++ [entry_of (loop init ([Sec "S"; Que "q"; Par "a"; Que "r"]
                             ++ [Par "b"]))].
Proof.
  destruct (titles_monotone [Sec "S"; Que "q"; Par "a"; Que "r"] [Par "b"])
    as (_ & _ & _ & H).
  apply H.
  - vm_compute. discriminate.
  - reflexivity.
  - vm_compute. discriminate.
  - vm_compute. discriminate.
Defined.

(** ** Order of the entries *)

Lemma questions_loop_prefix (ps : list Paragraph) (v : Vars) :
  exists more, questions (loop v ps) = questions v ++ more.
Proof.
  revert v. induction ps as [|p ps IH]; intros v; simpl.
  - exists []. symmetry. apply app_nil_r.
  - destruct (IH (step v p)) as [more Hm]. rewrite Hm, questions_step.
    exists (flushed v p ++ more). symmetry. apply app_assoc.
Qed.

Lemma questions_by_position (ps : list Paragraph) :
  questions (loop init ps)
  = flat_map (fun k => flushed (loop init (firstn k ps))
                         (nth k ps (mkParagraph [] [])))
      (seq 0 (List.length ps)).
Proof.
  induction ps as [|p ps IH] using rev_ind; [reflexivity|].
  rewrite loop_snoc, questions_step, length_app. simpl List.length.
  rewrite seq_app, flat_map_app. simpl seq. simpl flat_map.
  rewrite app_nil_r. f_equal.
  - rewrite IH, !flat_map_concat_map. f_equal. apply map_ext_in.
    intros k Hk. apply in_seq in Hk.
    rewrite firstn_app, app_nth1 by lia.
    replace (k - List.length ps) with 0 by lia.
    simpl. rewrite app_nil_r. reflexivity.
  - rewrite firstn_app, firstn_all, Nat.sub_diag. simpl.
    rewrite app_nil_r, nth_middle. reflexivity.
Qed.

(** C10: the result is what the paragraphs append, taken in the order of
    the paragraphs, followed by what the [if] after the loop appends; the
    entries a prefix of the input has appended stay in front; and equal
    inputs give equal results. *)
Theorem entries_in_input_order (ps : list Paragraph) :
  parse_paragraphs ps
  = flat_map (fun k => flushed (loop init (firstn k ps))
                         (nth k ps (mkParagraph [] [])))
      (seq 0 (List.length ps))
    ++ flushed_at_end (loop init ps) /\
  (forall ps1 ps2, ps = ps1 ++ ps2 ->
     exists later, parse_paragraphs ps = questions (loop init ps1) ++ later) /\
  (forall ps', ps' = ps -> parse_paragraphs ps' = parse_paragraphs ps).
Proof.
  assert (Hfin : forall v, finish v = questions v ++ flushed_at_end v).
  { intros v. unfold finish, flushed_at_end.
    destruct (complete v); [reflexivity | symmetry; apply app_nil_r]. }
  split; [|split].
  - unfold parse_paragraphs. rewrite Hfin, questions_by_position.
    reflexivity.
  - intros ps1 ps2 ->. unfold parse_paragraphs. rewrite Hfin, loop_app.
    destruct (questions_loop_prefix ps2 (loop init ps1)) as [more Hm].
    rewrite Hm.
    exists (more ++ flushed_at_end (loop (loop init ps1) ps2)).
    symmetry. apply app_assoc.
  - intros ps' ->. reflexivity.
Qed.

Lemma entries_in_input_order_witness :
  exists later,
    parse_paragraphs [Sec "S"; Que "q"; Par "a"; Que "r"; Par "b"]
    = questions (loop init [Sec "S"; Que "q"; Par "a"; Que "r"]) ++ later.
Proof.
  destruct (entries_in_input_order
              [Sec "S"; Que "q"; Par "a"; Que "r"; Par "b"]) as (_ & H & _).
  apply (H [Sec "S"; Que "q"; Par "a"; Que "r"] [Par "b"]). reflexivity.
Defined.

(** ** The text of an entry *)

Lemma app_eq_self_nil {A : Type} (l m : list A) : l ++ m = l -> m = [].
Proof.
  intros H. apply (app_inv_head l). rewrite app_nil_r. exact H.
Qed.

Lemma just_flushed_answer (ps : list Paragraph) :
  just_flushed ps -> answer_text_so_far (loop init ps) = [].
Proof.
  intros [-> | (ps' & p & -> & H)]; [reflexivity|].
  rewrite loop_snoc in *. rewrite step_kind in *.
  destruct (kind p); simpl in *;
    try (symmetry in H; apply app_eq_self_nil in H; discriminate).
  apply app_inv_head in H. unfold flushed_at_end in H.
  destruct (complete (loop init ps')); [reflexivity | discriminate].
Qed.

(** While nothing is appended to [questions], [answer_text_so_far] grows by
    a line feed and the cleaned text of each paragraph of the last branch. *)
Lemma answer_without_flush (ps : list Paragraph) (v : Vars) :
  questions (loop v ps) = questions v ->
  answer_text_so_far (loop v ps)
  = answer_text_so_far v ++ List.concat (map (cons LF) (body_texts ps)).
Proof.
  revert v. induction ps as [|p ps IH]; intros v H; simpl.
  - symmetry. apply app_nil_r.
  - simpl in H.
    destruct (questions_loop_prefix ps (step v p)) as [more Hm].
    assert (Hf : flushed v p = [] /\ more = []).
    { rewrite Hm, questions_step, <- app_assoc in H.
      apply app_eq_self_nil in H. apply app_eq_nil in H. exact H. }
    destruct Hf as [Hf ->]. rewrite app_nil_r in Hm.
    rewrite (IH _ Hm). unfold body_texts. simpl flat_map.
    fold (body_texts ps). rewrite step_kind. unfold flushed in Hf.
    destruct (kind p); simpl; try reflexivity.
    + destruct (complete v); [discriminate | reflexivity].
    + rewrite <- app_assoc. reflexivity.
Qed.

Lemma concat_LF_join (ts : list pystr) :
  ts <> [] -> List.concat (map (cons LF) ts) = LF :: join [LF] ts.
Proof.
  induction ts as [|t ts IH]; [congruence|]. intros _.
  destruct ts as [|t' ts].
  - simpl. rewrite app_nil_r. reflexivity.
  - change (List.concat (map (cons LF) (t :: t' :: ts)))
      with (LF :: t ++ List.concat (map (cons LF) (t' :: ts))).
    rewrite IH by discriminate. reflexivity.
Qed.

Lemma strip_concat_LF (ts : list pystr) :
  strip (List.concat (map (cons LF) ts)) = strip (join [LF] ts).
Proof.
  destruct ts as [|t ts]; [reflexivity|].
  rewrite concat_LF_join by discriminate. apply strip_LF.
Qed.

(** C2, as stated, fails: the paragraph before the first question heading
    is part of the text of the first entry. *)
Lemma preamble_in_first_entry :
  parse_paragraphs ([Sec "S"; Par "Welcome."] ++ Que "q" :: [Par "a"])
  = [ mkEntry (of_string "Welcome." ++ LF :: of_string "a")
        (of_string "S") (of_string "q") ] /\
  strip (join [LF] (body_texts [Par "a"])) = of_string "a" /\
  of_string "Welcome." ++ LF :: of_string "a"
  <> strip (join [LF] (body_texts [Par "a"])).
Proof. repeat split. vm_compute. discriminate. Qed.

(** C2 (amended): the text of an appended entry is made of the cleaned
    texts of all paragraphs of the last branch since the previous paragraph
    that appended an entry, or since the start of the input if there is
    none, up to the flush, joined by line feeds and stripped.  Paragraphs
    before the first question heading are among them. *)
Theorem text_since_last_flush (ps0 ps : list Paragraph) :
  just_flushed ps0 ->
  questions (loop init (ps0 ++ ps)) = questions (loop init ps0) ->
  (forall p e,
     question_style p = true -> clean_line (par_text p) <> [] ->
     questions (loop init ((ps0 ++ ps) ++ [p]))
     = questions (loop init ps0) ++ [e] ->
     text e = strip (join [LF] (body_texts ps))) /\
  (forall e,
     parse_paragraphs (ps0 ++ ps) = questions (loop init ps0) ++ [e] ->
     text e = strip (join [LF] (body_texts ps))).
Proof.
  intros H0 Hq.
  assert (Ha : strip (answer_text_so_far (loop init (ps0 ++ ps)))
               = strip (join [LF] (body_texts ps))).
  { rewrite loop_app in *. rewrite (answer_without_flush ps _ Hq).
    rewrite (just_flushed_answer ps0 H0). simpl. apply strip_concat_LF. }
  split.
  - intros p e Hs Ht He. rewrite loop_snoc, questions_step, Hq in He.
    apply app_inv_head in He. unfold flushed in He.
    rewrite (kind_question p Hs Ht) in He.
    destruct (complete (loop init (ps0 ++ ps))); [|discriminate].
    injection He as <-. exact Ha.
  - intros e He. unfold parse_paragraphs, finish in He.
    destruct (complete (loop init (ps0 ++ ps))).
    + rewrite Hq in He. apply app_inv_head in He. injection He as <-.
      exact Ha.
    + rewrite Hq in He. symmetry in He. apply app_eq_self_nil in He.
      discriminate.
Qed.

Lemma text_since_last_flush_witness :
  text (Ent "b" "S" "r") = strip (join [LF] (body_texts [Par "b"])).
Proof.
  destruct (text_since_last_flush
              [Sec "S"; Que "q"; Par "a"; Que "r"] [Par "b"]) as [H _].
  - right. exists [Sec "S"; Que "q"; Par "a"], (Que "r").
    split; reflexivity.
  - reflexivity.
  - apply (H (Que "t")).
    + reflexivity.
    + vm_compute. discriminate.
    + reflexivity.
Defined.

(** ** Entries turned back into paragraphs *)

Lemma step_heading_1 (v : Vars) (t : pystr) :
  clean_line t = t -> t <> [] ->
  step v (mkParagraph (of_string "Heading 1") t)
  = mkVars (questions v) t (question_title v) (answer_text_so_far v).
Proof.
  intros Hc Ht. unfold step. simpl par_text. rewrite Hc.
  destruct t; [congruence | reflexivity].
Qed.

Lemma step_heading_2 (v : Vars) (t : pystr) :
  clean_line t = t -> t <> [] ->
  step v (mkParagraph (of_string "Heading 2") t)
  = mkVars (questions v ++ flushed_at_end v) (section_title v) t
      (if complete v then [] else answer_text_so_far v).
Proof.
  intros Hc Ht. rewrite step_kind.
  assert (Hk : kind (mkParagraph (of_string "Heading 2") t)
               = QuestionHeading).
  { apply kind_question; [reflexivity | simpl; congruence]. }
  rewrite Hk. simpl par_text. rewrite Hc. reflexivity.
Qed.

Lemma step_normal (v : Vars) (t : pystr) :
  clean_line t = t -> t <> [] ->
  step v (mkParagraph (of_string "Normal") t)
  = mkVars (questions v) (section_title v) (question_title v)
      (answer_text_so_far v ++ LF :: t).
Proof.
  intros Hc Ht. unfold step. simpl par_text. rewrite Hc.
  destruct t; [congruence | reflexivity].
Qed.

Lemma settled_complete (qs : list Entry) (s : pystr) (e : Entry) :
  settled e -> s <> [] ->
  complete (mkVars qs s (question e) (LF :: text e)) = true /\
  entry_of (mkVars qs s (question e) (LF :: text e))
  = mkEntry (text e) s (question e).
Proof.
  intros ((_ & _ & Hc) & Ht & _ & Hq) Hs.
  assert (Hst : strip (LF :: text e) = text e).
  { rewrite strip_LF. apply clean_stable_strip, Hc. }
  split.
  - apply complete_iff. simpl. rewrite Hst. auto.
  - unfold entry_of. simpl. rewrite Hst. reflexivity.
Qed.

(** With the entry [e] open, the paragraphs of entries of one section give
    [e] and then these entries. *)
Lemma loop_reexpand (es : list Entry) (qs : list Entry) (e : Entry) :
  settled e -> Forall settled es ->
  Forall (fun e' => section e' = section e) es ->
  finish (loop (mkVars qs (section e) (question e) (LF :: text e))
            (reexpand es))
  = qs ++ e :: es.
Proof.
  revert qs e. induction es as [|e2 es IH]; intros qs e He Hes Hsec.
  - simpl. unfold finish.
    destruct (settled_complete qs (section e) e He) as [Hc Hen];
      [apply He|].
    rewrite Hc, Hen. destruct e; reflexivity.
  - inversion Hes as [|? ? He2 Hes']; subst.
    inversion Hsec as [|? ? Hs2 Hsec']; subst.
    assert (Hsec2 : Forall (fun e' => section e' = section e2) es).
    { rewrite Hs2. exact Hsec'. }
    pose proof He2 as ((Hc1 & Hc2 & Hc3) & Ht & Hs & Hq).
    unfold reexpand. simpl flat_map. fold (reexpand es).
    change (loop ?v (?a :: ?b :: ?c :: ?r))
      with (loop (step (step (step v a) b) c) r).
    rewrite (step_heading_1 _ _ Hc1 Hs). simpl questions.
    simpl question_title. simpl answer_text_so_far.
    rewrite (step_heading_2 _ _ Hc2 Hq). unfold flushed_at_end.
    destruct (settled_complete qs (section e2) e He Hs) as [Hc Hen].
    rewrite Hc, Hen. simpl questions. simpl section_title.
    rewrite (step_normal _ _ Hc3 Ht). simpl.
    rewrite (IH _ e2 He2 Hes' Hsec2), Hs2, <- app_assoc.
    destruct e; reflexivity.
Qed.

Lemma parse_reexpand (es : list Entry) :
  Forall settled es ->
  (forall e e', In e es -> In e' es -> section e = section e') ->
  parse_paragraphs (reexpand es) = es.
Proof.
  destruct es as [|e es]; [reflexivity|]. intros Hes Hsec.
  inversion Hes as [|? ? He Hes']; subst.
  pose proof He as ((Hc1 & Hc2 & Hc3) & Ht & Hs & Hq).
  unfold parse_paragraphs, reexpand. simpl flat_map. fold (reexpand es).
  change (loop ?v (?a :: ?b :: ?c :: ?r))
    with (loop (step (step (step v a) b) c) r).
  rewrite (step_heading_1 _ _ Hc1 Hs), (step_heading_2 _ _ Hc2 Hq).
  simpl. rewrite (step_normal _ _ Hc3 Ht). simpl.
  apply (loop_reexpand es [] e He Hes').
  apply Forall_forall. intros e' Hin. apply Hsec; simpl; auto.
Qed.

(** C4, as stated, fails: the entries of two sections come back with the
    first under the section of the second, because a section heading does
    not close the open question. *)
Lemma reexpand_moves_section :
  parse_paragraphs
    [Sec "A"; Que "q1"; Par "a1"; Que "q2"; Sec "B"; Par "a2"]
  = [Ent "a1" "A" "q1"; Ent "a2" "B" "q2"] /\
  parse_paragraphs (reexpand [Ent "a1" "A" "q1"; Ent "a2" "B" "q2"])
  = [Ent "a1" "B" "q1"; Ent "a2" "B" "q2"] /\
  parse_paragraphs
    (reexpand (parse_paragraphs
       [Sec "A"; Que "q1"; Par "a1"; Que "q2"; Sec "B"; Par "a2"]))
  <> parse_paragraphs
       [Sec "A"; Que "q1"; Par "a1"; Que "q2"; Sec "B"; Par "a2"].
Proof. repeat split. vm_compute. discriminate. Qed.

(** C4 (amended): when the entries of a result all have the same section
    and [clean_line] leaves their texts as they are, turning each entry into
    a section heading, a question heading and a body paragraph and parsing
    these paragraphs gives the same entries back. *)
Theorem reexpand_one_section (ps : list Paragraph) :
  Forall clean_stable (parse_paragraphs ps) ->
  (forall e e', In e (parse_paragraphs ps) -> In e' (parse_paragraphs ps) ->
                section e = section e') ->
  parse_paragraphs (reexpand (parse_paragraphs ps)) = parse_paragraphs ps.
Proof.
  intros Hst Hsec. apply parse_reexpand; [|exact Hsec].
  pose proof (parse_fields ps) as Hf.
  rewrite Forall_forall in *. intros e He. split; auto.
Qed.

Lemma reexpand_one_section_witness :
  parse_paragraphs
    (reexpand (parse_paragraphs
       [Sec "General"; Que "Start date?"; Par "Course starts Jan 15.";
        Que "Where is Slack?"; Par "Link in announcements."]))
  = parse_paragraphs
      [Sec "General"; Que "Start date?"; Par "Course starts Jan 15.";
       Que "Where is Slack?"; Par "Link in announcements."].
Proof.
  apply reexpand_one_section.
  - repeat constructor.
  - intros e e' [<- | [<- | []]] [<- | [<- | []]]; reflexivity.
Defined.

(** ** The course loop *)

Lemma course_loop_app {E : Type} (download : pystr -> E + list Paragraph)
    (m1 m2 : list (pystr * pystr)) (docs1 docs : list Course) :
  Forall2 (fetched download) m1 docs1 ->
  course_loop download (m1 ++ m2) docs
  = course_loop download m2 (docs ++ docs1).
Proof.
  intros H. revert docs.
  induction H as [|[c f] d m1 docs1 (ps & Hd & ->) _ IH]; intros docs.
  - simpl. rewrite app_nil_r. reflexivity.
  - simpl in *. unfold read_faq. rewrite Hd, IH, <- app_assoc. reflexivity.
Qed.

(** C5, as stated, fails: with the mapping of the notebook, a failure for
    the first course leaves [documents] empty although the other two
    downloads succeed, and a run of the notebook writes nothing. *)
Lemma failed_course_stops_loop :
  ~ (forall (download : pystr -> pystr + list Paragraph) c f ps,
       In (c, f) faq_documents -> download f = inr ps ->
       In (mkCourse c (parse_paragraphs ps))
          (fst (course_loop download faq_documents []))) /\
  course_loop first_fails faq_documents []
  = ([], Some (of_string "404 Client Error")) /\
  run_notebook first_fails faq_documents
  = inl (of_string "404 Client Error").
Proof.
  split; [|split; reflexivity].
  intros H.
  apply (H first_fails (of_string "mlops-zoomcamp")
           (of_string "12TlBfhIiKtyBv8RnsoJR6F72bkPDGEvPOItJIxaEzE0")
           [Sec "General"; Que "When?"; Par "Soon."]).
  - simpl. auto.
  - reflexivity.
Qed.

(** C5 (amended): the course loop catches nothing, so a retrieval failure
    stops it.  When the downloads of the courses before a failing one
    succeed, [documents] holds their results in the order of the mapping
    and nothing of the failing course or of the courses after it, and a run
    of the notebook ends with the exception; when every download succeeds,
    the results of all courses are written, in the order of the mapping. *)
Theorem course_loop_until_failure {E : Type}
    (download : pystr -> E + list Paragraph)
    (before : list (pystr * pystr)) (docs : list Course) :
  Forall2 (fetched download) before docs ->
  run_notebook download before = inr docs /\
  (forall c f exn after,
     download f = inl exn ->
     course_loop download (before ++ (c, f) :: after) [] = (docs, Some exn) /\
     run_notebook download (before ++ (c, f) :: after) = inl exn).
Proof.
  intros H. split.
  - unfold run_notebook.
    rewrite <- (app_nil_r before), (course_loop_app download _ _ _ _ H).
    reflexivity.
  - intros c f exn after Hf.
    assert (Hl : course_loop download (before ++ (c, f) :: after) []
                 = (docs, Some exn)).
    { rewrite (course_loop_app download _ _ _ _ H). simpl.
      unfold read_faq. rewrite Hf. reflexivity. }
    split; [exact Hl|]. unfold run_notebook. rewrite Hl. reflexivity.
Qed.

Lemma course_loop_until_failure_witness :
  run_notebook second_fails
    [ (of_string "data-engineering-zoomcamp",
       of_string "19bnYs80DwuUimHM65UV3sylsCn2j1vziPOwzBwQrebw") ]
  = inr [ mkCourse (of_string "data-engineering-zoomcamp")
            [Ent "Soon." "General" "When?"] ] /\
  course_loop second_fails faq_documents []
  = ([ mkCourse (of_string "data-engineering-zoomcamp")
         [Ent "Soon." "General" "When?"] ],
     Some (of_string "404 Client Error")).
Proof.
  destruct (course_loop_until_failure second_fails
              [ (of_string "data-engineering-zoomcamp",
                 of_string "19bnYs80DwuUimHM65UV3sylsCn2j1vziPOwzBwQrebw") ]
              [ mkCourse (of_string "data-engineering-zoomcamp")
                  [Ent "Soon." "General" "When?"] ])
    as [Hok Hfail].
  - repeat constructor. eexists. split; reflexivity.
  - split; [exact Hok|].
    apply (Hfail (of_string "machine-learning-zoomcamp")
             (of_string "1LpPanc33QJJ6BSsyxVg-pWNMplal84TdZtq10naIhD8")
             (of_string "404 Client Error")
             [ (of_string "mlops-zoomcamp",
                of_string "12TlBfhIiKtyBv8RnsoJR6F72bkPDGEvPOItJIxaEzE0") ]).
    reflexivity.
Defined.

(** * Further properties *)

(** ** What stripping removes *)

Lemma lstrip_by_split (p : codepoint -> bool) (s : pystr) :
  exists pre, s = pre ++ lstrip_by p s /\ forallb p pre = true.
Proof.
  induction s as [|c s (pre & IH & Hp)]; simpl.
  - exists []. split; reflexivity.
  - destruct (p c) eqn:Hc.
    + exists (c :: pre). simpl. rewrite Hc, Hp. split; [f_equal; exact IH|].
      reflexivity.
    + exists []. split; reflexivity.
Qed.

Lemma forallb_rev_true (p : codepoint -> bool) (s : pystr) :
  forallb p s = true -> forallb p (rev s) = true.
Proof.
  rewrite !forallb_forall. intros H c Hc. apply H, in_rev, Hc.
Qed.

Lemma rstrip_by_split (p : codepoint -> bool) (s : pystr) :
  exists suf, s = rstrip_by p s ++ suf /\ forallb p suf = true.
Proof.
  unfold rstrip_by. destruct (lstrip_by_split p (rev s)) as (pre & H & Hp).
  exists (rev pre). split; [|apply forallb_rev_true, Hp].
  rewrite <- rev_app_distr, <- H, rev_involutive. reflexivity.
Qed.

Lemma strip_by_split (p : codepoint -> bool) (s : pystr) :
  exists pre suf, s = pre ++ strip_by p s ++ suf /\
                  forallb p pre = true /\ forallb p suf = true.
Proof.
  destruct (lstrip_by_split p s) as (pre & H & Hp).
  destruct (rstrip_by_split p (lstrip_by p s)) as (suf & H' & Hs).
  exists pre, suf. unfold strip_by. rewrite <- H'. auto.
Qed.

(** X1: [clean_line] only removes characters at the two ends, white space
    outside and U+FEFF inside of it; what is between stays in place. *)
Theorem clean_line_infix (s : pystr) :
  exists ws1 bom1 bom2 ws2,
    s = ws1 ++ bom1 ++ clean_line s ++ bom2 ++ ws2 /\
    forallb isspace ws1 = true /\ forallb isbom bom1 = true /\
    forallb isbom bom2 = true /\ forallb isspace ws2 = true.
Proof.
  destruct (strip_by_split isspace s) as (ws1 & ws2 & Hs & H1 & H2).
  destruct (strip_by_split isbom (strip s)) as (b1 & b2 & Hb & H3 & H4).
  exists ws1, b1, b2, ws2. rewrite clean_line_unfold.
  repeat split; try assumption.
  fold (strip s) in Hs. transitivity (ws1 ++ strip s ++ ws2); [exact Hs|].
  f_equal. rewrite (app_assoc _ b2 ws2), (app_assoc b1 _ ws2). f_equal.
  exact Hb.
Qed.

(** ** Which texts are cleaned to nothing *)

Lemma lstrip_by_nil (p : codepoint -> bool) (s : pystr) :
  lstrip_by p s = [] <-> forallb p s = true.
Proof.
  induction s as [|c s IH]; simpl; [tauto|].
  destruct (p c); simpl; [exact IH|]. split; discriminate.
Qed.

Lemma strip_by_nil (p : codepoint -> bool) (s : pystr) :
  strip_by p s = [] <-> forallb p s = true.
Proof.
  unfold strip_by, rstrip_by. split.
  - intros H. apply lstrip_by_nil.
    apply (f_equal (@rev codepoint)) in H. rewrite rev_involutive in H.
    simpl in H. apply lstrip_by_nil in H. apply forallb_rev_true in H.
    rewrite rev_involutive in H.
    pose proof (lstrip_by_starts p s) as Hs.
    destruct (lstrip_by p s) as [|c t]; [reflexivity|].
    simpl in *. rewrite Hs in H. discriminate.
  - intros H. apply lstrip_by_nil in H. rewrite H. reflexivity.
Qed.

(** X2: [clean_line] gives the empty string, so that the loop skips the
    paragraph, exactly when the text stripped of white space is made of
    U+FEFF characters only. *)
Theorem clean_line_empty_iff (s : pystr) :
  clean_line s = [] <-> forallb isbom (strip s) = true.
Proof. rewrite clean_line_unfold. apply strip_by_nil. Qed.

Lemma clean_line_empty_iff_witness :
  clean_line (of_string "   ") = [] /\
  forallb isbom (strip (BOM :: of_string " " ++ [BOM])) = false.
Proof.
  split.
  - apply clean_line_empty_iff. reflexivity.
  - destruct (forallb isbom (strip (BOM :: of_string " " ++ [BOM]))) eqn:H;
      [|reflexivity].
    apply clean_line_empty_iff in H. vm_compute in H. discriminate.
Defined.

(** ** Cleaning twice, and padding *)

(** X3: when the text stripped of white space neither begins nor ends with
    U+FEFF, [clean_line] is [strip], and cleaning its result again changes
    nothing. *)
Theorem clean_line_idempotent (s : pystr) :
  starts_with isbom (strip s) = false ->
  ends_with isbom (strip s) = false ->
  clean_line s = strip s /\ clean_line (clean_line s) = clean_line s.
Proof.
  intros Hs He.
  assert (H : clean_line s = strip s).
  { rewrite clean_line_unfold. apply strip_by_id; assumption. }
  split; [exact H|]. rewrite H at 1. rewrite clean_line_unfold, strip_idem.
  rewrite <- clean_line_unfold. reflexivity.
Qed.

Lemma clean_line_idempotent_witness :
  clean_line (of_string "  When?  ") = strip (of_string "  When?  ") /\
  clean_line (clean_line (of_string "  When?  "))
  = clean_line (of_string "  When?  ").
Proof. apply clean_line_idempotent; reflexivity. Defined.

Lemma lstrip_by_pad (p : codepoint -> bool) (a s : pystr) :
  forallb p a = true -> lstrip_by p (a ++ s) = lstrip_by p s.
Proof.
  induction a as [|c a IH]; simpl; [reflexivity|].
  intros H. apply andb_prop in H. destruct H as [-> H]. apply IH, H.
Qed.

Lemma rstrip_by_pad (p : codepoint -> bool) (s b : pystr) :
  forallb p b = true -> rstrip_by p (s ++ b) = rstrip_by p s.
Proof.
  intros H. unfold rstrip_by. rewrite rev_app_distr.
  rewrite lstrip_by_pad by (apply forallb_rev_true, H). reflexivity.
Qed.

Lemma strip_by_pad (p : codepoint -> bool) (a s b : pystr) :
  forallb p a = true -> forallb p b = true ->
  strip_by p (a ++ s ++ b) = strip_by p s.
Proof.
  intros Ha Hb. unfold strip_by. rewrite (lstrip_by_pad p a _ Ha).
  induction s as [|c s IH]; simpl.
  - apply lstrip_by_nil in Hb. rewrite Hb. reflexivity.
  - destruct (p c); [exact IH|].
    apply (rstrip_by_pad p (c :: s) b Hb).
Qed.

(** X4: white space put before and after a text does not change what
    [clean_line] gives. *)
Theorem clean_line_padding (a s b : pystr) :
  forallb isspace a = true -> forallb isspace b = true ->
  clean_line (a ++ s ++ b) = clean_line s.
Proof.
  intros Ha Hb. rewrite !clean_line_unfold. unfold strip.
  rewrite (strip_by_pad isspace a s b Ha Hb). reflexivity.
Qed.

Lemma clean_line_padding_witness :
  clean_line (of_string "  " ++ (BOM :: of_string "When?") ++ [LF])
  = clean_line (BOM :: of_string "When?").
Proof. apply clean_line_padding; reflexivity. Defined.

(** ** What the loop reads of a paragraph *)




(** ** The titles of an entry *)

Lemma texts_of_snoc (k : Kind) (ps : list Paragraph) (p : Paragraph) :
  texts_of k (ps ++ [p])
  = texts_of k ps
    ++ (if Kind_eqb (kind p) k then [clean_line (par_text p)] else []).
Proof.
  unfold texts_of. rewrite flat_map_app. simpl. rewrite app_nil_r.
  reflexivity.
Qed.

Lemma last_heading_snoc (k : Kind) (ps : list Paragraph) (p : Paragraph) :
  last_heading k (ps ++ [p])
  = if Kind_eqb (kind p) k then clean_line (par_text p)
    else last_heading k ps.
Proof.
  unfold last_heading. rewrite texts_of_snoc.
  destruct (Kind_eqb (kind p) k); [apply last_last|].
  rewrite app_nil_r. reflexivity.
Qed.

Lemma loop_titles (ps : list Paragraph) :
  section_title (loop init ps) = last_heading SectionHeading ps /\
  question_title (loop init ps) = last_heading QuestionHeading ps.
Proof.
  induction ps as [|p ps [IHs IHq]] using rev_ind; [split; reflexivity|].
  rewrite loop_snoc, step_kind, !last_heading_snoc.
  destruct (kind p); simpl; auto.
Qed.

Lemma flushed_entry (v : Vars) (p : Paragraph) (e : Entry) :
  flushed v p = [e] -> e = entry_of v.
Proof.
  unfold flushed. destruct (kind p); try discriminate.
  destruct (complete v); [|discriminate]. intros H. injection H as <-.
  reflexivity.
Qed.

Lemma finish_entry (v : Vars) (e : Entry) :
  finish v = questions v ++ [e] -> e = entry_of v.
Proof.
  unfold finish. destruct (complete v); intros H.
  - apply app_inv_head in H. injection H as <-. reflexivity.
  - symmetry in H. apply app_eq_self_nil in H. discriminate.
Qed.

(** X6: an entry appended after the paragraphs [ps], by the next paragraph
    or by the end of the input, has as section the cleaned text of the last
    section heading of [ps] and as question that of the last question
    heading of [ps].  The section is thus the one in force at the flush, not
    the one the question heading stood under. *)
Theorem entry_titles (ps : list Paragraph) (e : Entry) :
  (exists p, questions (loop init (ps ++ [p]))
             = questions (loop init ps) ++ [e]) \/
  parse_paragraphs ps = questions (loop init ps) ++ [e] ->
  section e = last_heading SectionHeading ps /\
  question e = last_heading QuestionHeading ps.
Proof.
  intros H.
  assert (He : e = entry_of (loop init ps)).
  { destruct H as [[p H] | H].
    - rewrite loop_snoc, questions_step in H. apply app_inv_head in H.
      apply (flushed_entry _ p), H.
    - apply finish_entry, H. }
  subst e. simpl. apply loop_titles.
Qed.

Lemma entry_titles_witness :
  section (Ent "a1" "B" "q1")
  = last_heading SectionHeading [Sec "A"; Que "q1"; Par "a1"; Sec "B"] /\
  question (Ent "a1" "B" "q1")
  = last_heading QuestionHeading [Sec "A"; Que "q1"; Par "a1"; Sec "B"].
Proof.
  apply entry_titles. left. exists (Que "q2"). reflexivity.
Defined.

(** ** Inputs that give no entry *)

Lemma complete_blocked (v : Vars) :
  section_title v = [] \/ question_title v = [] \/
  answer_text_so_far v = [] ->
  complete v = false.
Proof.
  unfold complete. intros [-> | [-> | ->]]; simpl;
    rewrite ?andb_false_r; reflexivity.
Qed.

Lemma loop_no_section (ps : list Paragraph) (v : Vars) :
  has_kind SectionHeading ps = false -> section_title v = [] ->
  questions (loop v ps) = questions v /\ section_title (loop v ps) = [].
Proof.
  revert v. induction ps as [|p ps IH]; intros v Hk Hv; simpl; [auto|].
  simpl in Hk. apply orb_false_elim in Hk. destruct Hk as [Hp Hk].
  assert (Hs : questions (step v p) = questions v /\
               section_title (step v p) = []).
  { rewrite step_kind. unfold flushed_at_end.
    rewrite (complete_blocked v) by auto.
    destruct (kind p); simpl; rewrite ?app_nil_r; auto. discriminate. }
  destruct Hs as [Hq Hs]. rewrite <- Hq. apply IH; assumption.
Qed.

Lemma loop_no_question (ps : list Paragraph) (v : Vars) :
  has_kind QuestionHeading ps = false -> question_title v = [] ->
  questions (loop v ps) = questions v /\ question_title (loop v ps) = [].
Proof.
  revert v. induction ps as [|p ps IH]; intros v Hk Hv; simpl; [auto|].
  simpl in Hk. apply orb_false_elim in Hk. destruct Hk as [Hp Hk].
  assert (Hs : questions (step v p) = questions v /\
               question_title (step v p) = []).
  { rewrite step_kind. destruct (kind p); simpl; auto. discriminate. }
  destruct Hs as [Hq Hs]. rewrite <- Hq. apply IH; assumption.
Qed.

Lemma loop_no_body (ps : list Paragraph) (v : Vars) :
  has_kind Body ps = false -> answer_text_so_far v = [] ->
  questions (loop v ps) = questions v /\
  answer_text_so_far (loop v ps) = [].
Proof.
  revert v. induction ps as [|p ps IH]; intros v Hk Hv; simpl; [auto|].
  simpl in Hk. apply orb_false_elim in Hk. destruct Hk as [Hp Hk].
  assert (Hs : questions (step v p) = questions v /\
               answer_text_so_far (step v p) = []).
  { rewrite step_kind. unfold flushed_at_end.
    rewrite (complete_blocked v) by auto.
    destruct (kind p); simpl; rewrite ?app_nil_r; auto. discriminate. }
  destruct Hs as [Hq Hs]. rewrite <- Hq. apply IH; assumption.
Qed.

(** X7: an input without a section heading, without a question heading, or
    without a paragraph of the last branch gives no entry at all. *)
Theorem no_entries_without_each_kind (ps : list Paragraph) :
  has_kind SectionHeading ps = false \/
  has_kind QuestionHeading ps = false \/
  has_kind Body ps = false ->
  parse_paragraphs ps = [].
Proof.
  intros H. unfold parse_paragraphs, finish.
  assert (Hl : questions (loop init ps) = [] /\
               complete (loop init ps) = false).
  { destruct H as [H | [H | H]].
    - destruct (loop_no_section ps init H eq_refl) as [Hq Hs].
      split; [exact Hq | apply complete_blocked; auto].
    - destruct (loop_no_question ps init H eq_refl) as [Hq Hs].
      split; [exact Hq | apply complete_blocked; auto].
    - destruct (loop_no_body ps init H eq_refl) as [Hq Hs].
      split; [exact Hq | apply complete_blocked; auto]. }
  destruct Hl as [Hq ->]. exact Hq.
Qed.

Lemma no_entries_without_each_kind_witness :
  parse_paragraphs [Que "When?"; Par "Soon."; Que "Where?"; Par "Here."]
  = [].
Proof. apply no_entries_without_each_kind. left. reflexivity. Defined.

(** ** Entries and answer paragraphs *)

Lemma complete_answer (v : Vars) :
  complete v = true -> truthy (answer_text_so_far v) = true.
Proof.
  intros H. apply complete_iff in H. destruct H as (_ & _ & H).
  destruct (answer_text_so_far v); [exfalso; apply H|]; reflexivity.
Qed.

Lemma step_answer_count (v : Vars) (p : Paragraph) (n : nat) :
  answer_count v <= n ->
  answer_count (step v p)
  <= n + (if Kind_eqb (kind p) Body then 1 else 0).
Proof.
  unfold answer_count. intros H. rewrite step_kind.
  destruct (kind p) eqn:Hk; simpl; try lia.
  - unfold flushed_at_end. destruct (complete v) eqn:Hc.
    + rewrite (complete_answer v Hc) in H. rewrite length_app. simpl. lia.
    + rewrite app_nil_r. lia.
  - destruct (answer_text_so_far v); simpl; lia.
Qed.

Lemma loop_answer_count (ps : list Paragraph) (v : Vars) (n : nat) :
  answer_count v <= n ->
  answer_count (loop v ps) <= n + List.length (texts_of Body ps).
Proof.
  revert v n. induction ps as [|p ps IH]; intros v n H; simpl; [lia|].
  pose proof (IH _ _ (step_answer_count v p n H)) as H'.
  rewrite length_app. destruct (Kind_eqb (kind p) Body); simpl in *; lia.
Qed.

(** X8: the result has at most as many entries as the input has paragraphs
    of the last branch (neither skipped nor a heading). *)
Theorem entries_le_body_paragraphs (ps : list Paragraph) :
  List.length (parse_paragraphs ps) <= List.length (texts_of Body ps).
Proof.
  pose proof (loop_answer_count ps init 0 (le_n 0)) as H.
  unfold parse_paragraphs, finish. unfold answer_count in H. simpl in H.
  destruct (complete (loop init ps)) eqn:Hc.
  - rewrite (complete_answer _ Hc) in H. rewrite length_app. simpl. lia.
  - lia.
Qed.

(** ** The ends of the fields *)

Lemma step_trimmed (v : Vars) (p : Paragraph) :
  Forall trimmed (questions v) /\
  (starts_with isbom (section_title v) = false /\
   ends_with isbom (section_title v) = false) /\
  (starts_with isbom (question_title v) = false /\
   ends_with isbom (question_title v) = false) ->
  Forall trimmed (questions (step v p)) /\
  (starts_with isbom (section_title (step v p)) = false /\
   ends_with isbom (section_title (step v p)) = false) /\
  (starts_with isbom (question_title (step v p)) = false /\
   ends_with isbom (question_title (step v p)) = false).
Proof.
  intros (Hq & Hs & Ht). rewrite step_kind.
  destruct (kind p); simpl; auto using clean_line_no_bom.
  split; [|auto using clean_line_no_bom].
  apply Forall_app. split; [exact Hq|]. unfold flushed_at_end.
  destruct (complete v); constructor; [|constructor].
  unfold trimmed. simpl. unfold strip.
  rewrite strip_by_starts, strip_by_ends. tauto.
Qed.

Lemma loop_trimmed (ps : list Paragraph) (v : Vars) :
  Forall trimmed (questions v) /\
  (starts_with isbom (section_title v) = false /\
   ends_with isbom (section_title v) = false) /\
  (starts_with isbom (question_title v) = false /\
   ends_with isbom (question_title v) = false) ->
  Forall trimmed (questions (loop v ps)) /\
  (starts_with isbom (section_title (loop v ps)) = false /\
   ends_with isbom (section_title (loop v ps)) = false) /\
  (starts_with isbom (question_title (loop v ps)) = false /\
   ends_with isbom (question_title (loop v ps)) = false).
Proof.
  revert v. induction ps as [|p ps IH]; intros v H; simpl; [exact H|].
  apply IH, step_trimmed, H.
Qed.

(** X9: in every entry of the result the text neither begins nor ends with
    white space, and the section and the question neither begin nor end
    with U+FEFF. *)
Theorem entries_trimmed (ps : list Paragraph) :
  Forall trimmed (parse_paragraphs ps).
Proof.
  destruct (loop_trimmed ps init) as (Hq & Hs & Ht).
  { repeat split; constructor. }
  unfold parse_paragraphs, finish.
  destruct (complete (loop init ps)); [|exact Hq].
  apply Forall_app. split; [exact Hq|]. constructor; [|constructor].
  unfold trimmed. simpl. unfold strip.
  rewrite strip_by_starts, strip_by_ends. tauto.
Qed.

(** ** A document of one section *)

Lemma plain_ends (t : pystr) :
  plain t ->
  starts_with isspace t = false /\ ends_with isspace t = false.
Proof.
  intros [Hc _]. apply clean_stable_strip in Hc. rewrite <- Hc. unfold strip.
  split; [apply strip_by_starts | apply strip_by_ends].
Qed.

Lemma ends_with_app (p : codepoint -> bool) (x t : pystr) :
  t <> [] -> ends_with p (x ++ t) = ends_with p t.
Proof.
  intros Ht. unfold ends_with. rewrite rev_app_distr.
  destruct (rev t) as [|c r] eqn:Hr; [|reflexivity].
  apply (f_equal (@rev codepoint)) in Hr. rewrite rev_involutive in Hr.
  contradiction.
Qed.

Lemma join_plain (ts : list pystr) :
  ts <> [] -> Forall plain ts ->
  join [LF] ts <> [] /\
  starts_with isspace (join [LF] ts) = false /\
  ends_with isspace (join [LF] ts) = false.
Proof.
  induction ts as [|t ts IH]; [congruence|]. intros _ H.
  inversion H as [|? ? Ht Hts]; subst.
  destruct (plain_ends t Ht) as [Hs He]. destruct Ht as [_ Hn].
  destruct ts as [|t' ts]; [simpl; auto|].
  destruct IH as (Hj & _ & Hje); [discriminate | exact Hts |].
  change (join [LF] (t :: t' :: ts))
    with (t ++ [LF] ++ join [LF] (t' :: ts)).
  split; [|split].
  - destruct t; [congruence | discriminate].
  - destruct t; [congruence | exact Hs].
  - rewrite app_assoc, ends_with_app by exact Hj. exact Hje.
Qed.

Lemma strip_lines_plain (ts : list pystr) :
  ts <> [] -> Forall plain ts ->
  strip (List.concat (map (cons LF) ts)) = join [LF] ts /\
  join [LF] ts <> [].
Proof.
  intros Hn H. destruct (join_plain ts Hn H) as (Hj & Hs & He).
  split; [|exact Hj]. rewrite strip_concat_LF.
  apply strip_by_id; assumption.
Qed.

Lemma loop_answer_paragraphs (ts : list pystr) (v : Vars) :
  Forall plain ts ->
  loop v (map (mkParagraph (of_string "Normal")) ts)
  = mkVars (questions v) (section_title v) (question_title v)
      (answer_text_so_far v ++ List.concat (map (cons LF) ts)).
Proof.
  intros H. revert v. induction H as [|t ts [Hc Hn] _ IH]; intros v.
  - simpl. rewrite app_nil_r. destruct v; reflexivity.
  - simpl. rewrite IH, (step_normal v t Hc Hn). simpl.
    rewrite <- app_assoc. reflexivity.
Qed.

Lemma loop_document (qas : list (pystr * list pystr)) (qs : list Entry)
    (s q : pystr) (ts : list pystr) :
  s <> [] -> q <> [] -> ts <> [] -> Forall plain ts ->
  Forall (fun qa => plain (fst qa) /\ snd qa <> [] /\ Forall plain (snd qa))
    qas ->
  finish (loop (mkVars qs s q (List.concat (map (cons LF) ts)))
            (flat_map (fun qa =>
                         mkParagraph (of_string "Heading 2") (fst qa) ::
                         map (mkParagraph (of_string "Normal")) (snd qa))
               qas))
  = qs ++ mkEntry (join [LF] ts) s q
       :: map (fun qa => mkEntry (join [LF] (snd qa)) s (fst qa)) qas.
Proof.
  intros Hs. revert qs q ts.
  induction qas as [|[q2 ts2] qas IH]; intros qs q ts Hq Hn Hts Hqas.
  - destruct (strip_lines_plain ts Hn Hts) as [Hst Hj].
    simpl. unfold finish.
    assert (Hc : complete (mkVars qs s q (List.concat (map (cons LF) ts)))
                 = true).
    { apply complete_iff. simpl. rewrite Hst. auto. }
    rewrite Hc. unfold entry_of. simpl. rewrite Hst. reflexivity.
  - inversion Hqas as [|? ? ([Hc2 Hq2] & Hn2 & Hts2) Hqas']; subst.
    simpl in Hc2, Hq2, Hn2, Hts2.
    destruct (strip_lines_plain ts Hn Hts) as [Hst Hj].
    simpl flat_map. simpl loop. rewrite loop_app.
    rewrite (step_heading_2 _ q2 Hc2 Hq2). unfold flushed_at_end.
    assert (Hc : complete (mkVars qs s q (List.concat (map (cons LF) ts)))
                 = true).
    { apply complete_iff. simpl. rewrite Hst. auto. }
    rewrite Hc. rewrite (loop_answer_paragraphs ts2 _ Hts2).
    unfold entry_of. simpl. rewrite Hst.
    rewrite (IH _ q2 ts2 Hq2 Hn2 Hts2 Hqas'), <- app_assoc. reflexivity.
Qed.

(** X10: for a document made of one section heading and then, for each
    question, its heading followed by at least one answer paragraph, all
    with texts that [clean_line] leaves as they are and that are not empty,
    the result has one entry for each question, in order: the answer
    paragraphs joined by line feeds, the section, and the question. *)
Theorem parse_document (s : pystr) (qas : list (pystr * list pystr)) :
  plain s ->
  Forall (fun qa => plain (fst qa) /\ snd qa <> [] /\ Forall plain (snd qa))
    qas ->
  parse_paragraphs (document s qas)
  = map (fun qa => mkEntry (join [LF] (snd qa)) s (fst qa)) qas.
Proof.
  intros [Hc Hs] Hqas. unfold parse_paragraphs, document. simpl loop.
  rewrite (step_heading_1 init s Hc Hs).
  destruct qas as [|[q ts] qas]; [reflexivity|].
  inversion Hqas as [|? ? ([Hc2 Hq2] & Hn2 & Hts2) Hqas']; subst.
  simpl in Hc2, Hq2, Hn2, Hts2.
  simpl flat_map. simpl loop. rewrite loop_app.
  rewrite (step_heading_2 _ q Hc2 Hq2).
  rewrite (loop_answer_paragraphs ts _ Hts2). simpl.
  apply (loop_document qas [] s q ts Hs Hq2 Hn2 Hts2 Hqas').
Qed.

Lemma parse_document_witness :
  parse_paragraphs
    (document (of_string "General")
       [ (of_string "When?", [of_string "Soon."; of_string "In January."]);
         (of_string "Where?", [of_string "Online."]) ])
  = [ mkEntry (of_string "Soon." ++ LF :: of_string "In January.")
        (of_string "General") (of_string "When?");
      Ent "Online." "General" "Where?" ].
Proof.
  apply (parse_document (of_string "General")
           [ (of_string "When?", [of_string "Soon."; of_string "In January."]);
             (of_string "Where?", [of_string "Online."]) ]).
  - split; [reflexivity | discriminate].
  - repeat constructor; discriminate.
Defined.

(** ** Section headings only label *)

Lemma complete_same_but_section (v w : Vars) :
  same_but_section v w -> complete v = complete w.
Proof.
  intros (_ & _ & Hv & Hw & Hq & Ha). unfold complete. rewrite Hq, Ha.
  apply truthy_true in Hv, Hw. rewrite Hv, Hw. reflexivity.
Qed.

Lemma step_same_but_section (v w : Vars) (p : Paragraph) :
  same_but_section v w -> same_but_section (step v p) (step w p).
Proof.
  intros H. pose proof (complete_same_but_section v w H) as Hc.
  destruct H as (Ht & Hqs & Hv & Hw & Hq & Ha).
  rewrite !step_kind. unfold same_but_section.
  destruct (kind p) eqn:Hk; simpl; try tauto.
  - assert (Hn : clean_line (par_text p) <> [])
      by (apply kind_text; congruence).
    tauto.
  - unfold flushed_at_end. rewrite <- Hc, !map_app, Ht, Hqs.
    destruct (complete v); simpl; rewrite ?Ha, ?Hq; tauto.
  - rewrite Ha. tauto.
Qed.

Lemma loop_same_but_section (ps : list Paragraph) (v w : Vars) :
  same_but_section v w -> same_but_section (loop v ps) (loop w ps).
Proof.
  revert v w. induction ps as [|p ps IH]; intros v w H; simpl; [exact H|].
  apply IH, step_same_but_section, H.
Qed.

Lemma finish_same_but_section (v w : Vars) :
  same_but_section v w ->
  map text (finish v) = map text (finish w) /\
  map question (finish v) = map question (finish w).
Proof.
  intros H. pose proof (complete_same_but_section v w H) as Hc.
  destruct H as (Ht & Hqs & _ & _ & Hq & Ha).
  unfold finish. rewrite <- Hc.
  destruct (complete v); [|auto].
  rewrite !map_app, Ht, Hqs. simpl. rewrite Ha, Hq. auto.
Qed.

(** X11: once [section_title] is non-empty, a further section heading
    changes neither the texts nor the questions of the entries of the
    result, nor their number; it can only change sections. *)
Theorem section_heading_only_labels (ps1 ps2 : list Paragraph)
    (p : Paragraph) :
  section_title (loop init ps1) <> [] ->
  kind p = SectionHeading ->
  map text (parse_paragraphs (ps1 ++ p :: ps2))
  = map text (parse_paragraphs (ps1 ++ ps2)) /\
  map question (parse_paragraphs (ps1 ++ p :: ps2))
  = map question (parse_paragraphs (ps1 ++ ps2)).
Proof.
  intros Hs Hk. unfold parse_paragraphs. rewrite !loop_app. simpl.
  apply finish_same_but_section, loop_same_but_section.
  rewrite step_kind, Hk. unfold same_but_section. simpl.
  assert (Hn : clean_line (par_text p) <> [])
    by (apply kind_text; congruence).
  tauto.
Qed.

Lemma section_heading_only_labels_witness :
  map text (parse_paragraphs
              ([Sec "A"; Que "q1"; Par "a1"] ++ Sec "B" :: [Que "q2"]))
  = map text (parse_paragraphs ([Sec "A"; Que "q1"; Par "a1"] ++ [Que "q2"]))
  /\
  map question (parse_paragraphs
                  ([Sec "A"; Que "q1"; Par "a1"] ++ Sec "B" :: [Que "q2"]))
  = map question
      (parse_paragraphs ([Sec "A"; Que "q1"; Par "a1"] ++ [Que "q2"])).
Proof.
  apply section_heading_only_labels.
  - vm_compute. discriminate.
  - reflexivity.
Defined.

(** ** How a run of the notebook ends *)

Lemma course_loop_ok {E : Type} (download : pystr -> E + list Paragraph)
    (m : list (pystr * pystr)) (acc docs : list Course) :
  course_loop download m acc = (docs, None) ->
  exists new, docs = acc ++ new /\ Forall2 (fetched download) m new.
Proof.
  revert acc. induction m as [|[c f] m IH]; intros acc H; simpl in H.
  - injection H as <-. exists []. rewrite app_nil_r. auto.
  - unfold read_faq in H. destruct (download f) as [exn|ps] eqn:Hd;
      [discriminate|].
    destruct (IH _ H) as (new & -> & Hnew).
    exists (mkCourse c (parse_paragraphs ps) :: new).
    rewrite <- app_assoc. split; [reflexivity|].
    constructor; [|exact Hnew]. exists ps. auto.
Qed.

Lemma course_loop_err {E : Type} (download : pystr -> E + list Paragraph)
    (m : list (pystr * pystr)) (acc docs : list Course) (exn : E) :
  course_loop download m acc = (docs, Some exn) ->
  exists before c f after new,
    m = before ++ (c, f) :: after /\ docs = acc ++ new /\
    Forall2 (fetched download) before new /\ download f = inl exn.
Proof.
  revert acc. induction m as [|[c f] m IH]; intros acc H; simpl in H;
    [discriminate|].
  unfold read_faq in H. destruct (download f) as [exn'|ps] eqn:Hd.
  - injection H as <- <-. exists [], c, f, m, [].
    rewrite app_nil_r. auto.
  - destruct (IH _ H) as (before & c' & f' & after & new & -> & -> & Hb & Hf).
    exists ((c, f) :: before), c', f', after,
      (mkCourse c (parse_paragraphs ps) :: new).
    rewrite <- app_assoc. repeat split; try assumption; try reflexivity.
    constructor; [|exact Hb]. exists ps. auto.
Qed.

(** X12: a run of the notebook writes a list exactly when every download
    of the mapping succeeds, and the list then has the dictionary of each
    course in the order of the mapping; it ends with an exception exactly
    when some download fails, and the exception is that of the first
    document of the mapping whose download fails. *)
Theorem run_notebook_outcome {E : Type}
    (download : pystr -> E + list Paragraph) (m : list (pystr * pystr)) :
  (forall docs,
     run_notebook download m = inr docs <->
     Forall2 (fetched download) m docs) /\
  (forall exn,
     run_notebook download m = inl exn <->
     exists before c f after docs,
       m = before ++ (c, f) :: after /\
       Forall2 (fetched download) before docs /\ download f = inl exn).
Proof.
  split.
  - intros docs. unfold run_notebook. split.
    + destruct (course_loop download m []) as [ds [exn|]] eqn:H;
        [discriminate|].
      intros Hd. injection Hd as <-.
      destruct (course_loop_ok download m [] ds H) as (new & -> & Hn).
      exact Hn.
    + intros H. rewrite <- (app_nil_r m).
      rewrite (course_loop_app download _ _ _ _ H). reflexivity.
  - intros exn. unfold run_notebook. split.
    + destruct (course_loop download m []) as [ds [exn'|]] eqn:H;
        [|discriminate].
      intros Hd. injection Hd as <-.
      destruct (course_loop_err download m [] ds exn' H)
        as (before & c & f & after & new & Hm & _ & Hb & Hf).
      exists before, c, f, after, new. auto.
    + intros (before & c & f & after & docs & -> & Hb & Hf).
      rewrite (course_loop_app download _ _ _ _ Hb). simpl.
      unfold read_faq. rewrite Hf. reflexivity.
Qed.

Lemma run_notebook_outcome_witness :
  Forall2 (fetched first_fails)
    [ (of_string "mlops-zoomcamp",
       of_string "12TlBfhIiKtyBv8RnsoJR6F72bkPDGEvPOItJIxaEzE0") ]
    [ mkCourse (of_string "mlops-zoomcamp") [Ent "Soon." "General" "When?"] ]
  /\
  exists before c f after docs,
    faq_documents = before ++ (c, f) :: after /\
    Forall2 (fetched second_fails) before docs /\
    second_fails f = inl (of_string "404 Client Error").
Proof.
  split.
  - apply (run_notebook_outcome first_fails). reflexivity.
  - apply (run_notebook_outcome second_fails faq_documents). reflexivity.
Defined.

(** ** No answer text is dropped on the way *)

Lemma join_lines (ts : list pystr) :
  ts <> [] ->
  Forall (fun t => strip t = t /\ t <> []) ts ->
  strip (List.concat (map (cons LF) ts)) = join [LF] ts /\
  List.concat (map (cons LF) ts) = LF :: join [LF] ts.
Proof.
  intros Hn H. split; [|apply concat_LF_join, Hn].
  rewrite strip_concat_LF. apply strip_by_id.
  - destruct ts as [|t ts]; [congruence|].
    inversion H as [|? ? [Hs Ht] _]; subst.
    assert (Hw : starts_with isspace t = false).
    { rewrite <- Hs. apply strip_by_starts. }
    destruct t as [|c t]; [congruence|].
    destruct ts; simpl in *; exact Hw.
  - clear Hn. induction H as [|t ts [Hs Ht] Hts IH]; [reflexivity|].
    assert (Hw : ends_with isspace t = false).
    { rewrite <- Hs. apply strip_by_ends. }
    destruct ts as [|t' ts]; [exact Hw|].
    change (join [LF] (t :: t' :: ts))
      with (t ++ [LF] ++ join [LF] (t' :: ts)).
    rewrite app_assoc, ends_with_app; [exact IH|].
    inversion Hts as [|? ? [_ Ht'] _]; subst.
    destruct t'; [congruence|]. destruct ts; discriminate.
Qed.

Lemma texts_of_nonempty (k : Kind) (ps : list Paragraph) :
  k <> Skipped -> Forall (fun t => t <> []) (texts_of k ps).
Proof.
  intros Hk. unfold texts_of. induction ps as [|p ps IH]; simpl;
    [constructor|].
  apply Forall_app. split; [|exact IH].
  destruct (Kind_eqb (kind p) k) eqn:E; constructor; [|constructor].
  apply kind_text. intros Hp. rewrite Hp in E. destruct k; simpl in E;
    congruence.
Qed.

Lemma loop_keeps_lines (ps : list Paragraph) :
  Forall (fun t => strip t = t) (texts_of Body ps) ->
  (exists ts, Forall (fun t => strip t = t /\ t <> []) ts /\
              answer_text_so_far (loop init ps)
              = List.concat (map (cons LF) ts)) /\
  List.concat (map (fun e => LF :: text e) (questions (loop init ps)))
  ++ answer_text_so_far (loop init ps)
  = List.concat (map (cons LF) (texts_of Body ps)).
Proof.
  induction ps as [|p ps IH] using rev_ind; intros H.
  - split; [exists []; split; [constructor | reflexivity] | reflexivity].
  - pose proof (texts_of_nonempty Body (ps ++ [p])) as Hne.
    rewrite texts_of_snoc in H, Hne. rewrite texts_of_snoc.
    apply Forall_app in H. destruct H as [Hps Hp].
    destruct (IH Hps) as [(ts & Hts & Ha) Hsum]. clear IH.
    rewrite loop_snoc, step_kind.
    destruct (kind p) eqn:Hk; simpl in *; rewrite ?app_nil_r; auto.
    + split; [exists ts; auto | exact Hsum].
    + split; [exists ts; auto | exact Hsum].
    + unfold flushed_at_end.
      destruct (complete (loop init ps)) eqn:Hc.
      * split; [exists []; split; [constructor | reflexivity]|].
        rewrite app_nil_r, map_app, concat_app. simpl.
        rewrite app_nil_r, <- Hsum. f_equal.
        assert (Hn : ts <> []).
        { intros ->. apply complete_answer in Hc. rewrite Ha in Hc.
          discriminate. }
        destruct (join_lines ts Hn Hts) as [Hst Hcat].
        rewrite Ha, Hst, Hcat. reflexivity.
      * rewrite app_nil_r. split; [exists ts; auto | exact Hsum].
    + assert (Hn : Forall (fun t => t <> [])
                     (texts_of Body ps ++ [clean_line (par_text p)])).
      { apply Hne. discriminate. }
      apply Forall_app in Hn. destruct Hn as [_ Hn].
      inversion Hn as [|? ? Hn' _]; subst.
      inversion Hp as [|? ? Hp' _]; subst.
      split.
      * exists (ts ++ [clean_line (par_text p)]). split.
        -- apply Forall_app. split; [exact Hts|]. constructor; auto.
        -- rewrite map_app, concat_app, Ha. simpl. rewrite app_nil_r.
           reflexivity.
      * rewrite map_app, concat_app, app_assoc, Hsum. simpl.
        rewrite app_nil_r. reflexivity.
Qed.

(** X13: when the cleaned texts of the answer paragraphs have no white
    space at their ends, the texts of the entries of the result, each after
    a line feed, followed by what [answer_text_so_far] holds if the final
    test fails, are the cleaned texts of all answer paragraphs of the
    input, each after a line feed and in order: no answer text is dropped
    before the end of the input, wherever it stands. *)
Theorem answer_lines_kept (ps : list Paragraph) :
  Forall (fun t => strip t = t) (texts_of Body ps) ->
  List.concat (map (fun e => LF :: text e) (parse_paragraphs ps))
  ++ (if complete (loop init ps) then []
      else answer_text_so_far (loop init ps))
  = List.concat (map (cons LF) (texts_of Body ps)).
Proof.
  intros H. destruct (loop_keeps_lines ps H) as [(ts & Hts & Ha) Hsum].
  unfold parse_paragraphs, finish.
  destruct (complete (loop init ps)) eqn:Hc; [|exact Hsum].
  rewrite app_nil_r, map_app, concat_app. simpl.
  rewrite app_nil_r, <- Hsum. f_equal.
  assert (Hn : ts <> []).
  { intros ->. apply complete_answer in Hc. rewrite Ha in Hc.
    discriminate. }
  destruct (join_lines ts Hn Hts) as [Hst Hcat].
  rewrite Ha, Hst, Hcat. reflexivity.
Qed.

Lemma answer_lines_kept_witness :
  List.concat
    (map (fun e => LF :: text e)
       (parse_paragraphs
          [Par "Welcome."; Sec "S"; Que "q1"; Par "a1"; Que "q2"; Par "a2"]))
  ++ (if complete
           (loop init
              [Par "Welcome."; Sec "S"; Que "q1"; Par "a1"; Que "q2";
               Par "a2"])
      then []
      else answer_text_so_far
             (loop init
                [Par "Welcome."; Sec "S"; Que "q1"; Par "a1"; Que "q2";
                 Par "a2"]))
  = List.concat
      (map (cons LF)
         (texts_of Body
            [Par "Welcome."; Sec "S"; Que "q1"; Par "a1"; Que "q2";
             Par "a2"])).
Proof. apply answer_lines_kept. repeat constructor. Defined.
